(** * litteraturkart: the corpus selector of [utils.py]

    A shallow embedding of the data wrangling functions of
    [src/litteraturkart/utils.py] ([extract_unique_values], [bool_filter],
    [filtered_selection]) and of its two HTTP fetchers ([imag_corpus],
    [geo_locations]), together with the properties the specification states
    about them; and of the formatting functions ([format_filename],
    [format_single_author], [format_author], [format_title],
    [combine_title_info]), of [filter_unique_options], [read_jsonl] and
    [corpus_parameters], with what the code shows about them.

    Python values are modelled as follows.
    - a [str] is the list of its code points ([pystr]); comparison of strings
      is Python's lexicographic comparison of code points;
    - a cell of a pandas column is a [pyval]: a string, an integer, or a
      missing value ([None]/[NaN]/[NA]);
    - a boolean pandas Series is a list of [option bool], [None] standing for
      a missing entry;
    - a call that can raise returns an [outcome]. *)

From Stdlib Require Import List Bool Arith ZArith NArith Lia.
From Stdlib Require Import Ascii String DecimalString.
From Stdlib Require Import Sorting.Sorted.
Import ListNotations.

Set Implicit Arguments.

(* ================================================================== *)
(** * Python strings *)

Definition char := N.
Definition pystr := list char.

(** The code point of an ASCII character. *)
Definition ch (a : ascii) : char := N_of_ascii a.

(** String literals of this file are UTF-8 encoded; [py] decodes one into
    code points (sequences of one to four bytes). *)
Fixpoint utf8_decode (bs : list N) : pystr :=
  match bs with
  | [] => []
  | b0 :: r0 =>
    if (b0 <? 128)%N then b0 :: utf8_decode r0
    else match r0 with
    | [] => []
    | b1 :: r1 =>
      if (b0 <? 224)%N
      then ((b0 - 192) * 64 + (b1 - 128))%N :: utf8_decode r1
      else match r1 with
      | [] => []
      | b2 :: r2 =>
        if (b0 <? 240)%N
        then ((b0 - 224) * 4096 + (b1 - 128) * 64 + (b2 - 128))%N
               :: utf8_decode r2
        else match r2 with
        | [] => []
        | b3 :: r3 =>
          ((b0 - 240) * 262144 + (b1 - 128) * 4096
           + (b2 - 128) * 64 + (b3 - 128))%N :: utf8_decode r3
        end
      end
    end
  end.

Definition py (s : string) : pystr :=
  utf8_decode (map N_of_ascii (list_ascii_of_string s)).

Definition str_eqb (a b : pystr) : bool :=
  if list_eq_dec N.eq_dec a b then true else false.

(** [a < b] and [a <= b] on [str]: lexicographic on code points. *)
Fixpoint str_ltb (a b : pystr) : bool :=
  match a, b with
  | [], [] => false
  | [], _ :: _ => true
  | _ :: _, [] => false
  | x :: a', y :: b' =>
    if (x <? y)%N then true
    else if (x =? y)%N then str_ltb a' b' else false
  end.

Definition str_leb (a b : pystr) : bool := negb (str_ltb b a).

(** [a < b] as a proposition. *)
Definition str_lt (a b : pystr) : Prop := str_ltb a b = true.

(** [s.startswith(p)]. *)
Fixpoint starts_with (p s : pystr) : bool :=
  match p, s with
  | [], _ => true
  | _ :: _, [] => false
  | x :: p', y :: s' => (x =? y)%N && starts_with p' s'
  end.

(** [str.isspace] on one code point: the characters [str.strip()] removes. *)
Definition is_space (c : char) : bool :=
  ((9 <=? c) && (c <=? 13) || (28 <=? c) && (c <=? 32)
   || (c =? 133) || (c =? 160) || (c =? 5760)
   || (8192 <=? c) && (c <=? 8202)
   || (c =? 8232) || (c =? 8233) || (c =? 8239) || (c =? 8287)
   || (c =? 12288))%N.

Fixpoint lstrip (s : pystr) : pystr :=
  match s with
  | [] => []
  | c :: s' => if is_space c then lstrip s' else s
  end.

Definition rstrip (s : pystr) : pystr := rev (lstrip (rev s)).

(** [s.strip()]. *)
Definition strip (s : pystr) : pystr := rstrip (lstrip s).

Definition cons_head (c : char) (us : list pystr) : list pystr :=
  match us with
  | [] => [[c]]
  | u :: us' => (c :: u) :: us'
  end.

(** [s.split(sep)] for a non-empty [sep]: the units between the leftmost,
    non-overlapping occurrences of [sep].  [skip] counts the characters of a
    just matched separator that are still to be passed over; the head of the
    result is the unit being read. *)
Fixpoint split_go (sep : pystr) (skip : nat) (s : pystr) : list pystr :=
  match s with
  | [] => [[]]
  | c :: s' =>
    match skip with
    | S k => split_go sep k s'
    | O =>
      if starts_with sep s
      then [] :: split_go sep (List.length sep - 1) s'
      else cons_head c (split_go sep O s')
    end
  end.

(** [sep.join(parts)] on strings. *)
Fixpoint join (sep : pystr) (parts : list pystr) : pystr :=
  match parts with
  | [] => []
  | [p] => p
  | p :: rest => p ++ sep ++ join sep rest
  end.

(** [s.replace(old, new)] for a one-character [old]. *)
Definition replace (old : char) (new : pystr) (s : pystr) : pystr :=
  flat_map (fun c => if (c =? old)%N then new else [c]) s.

(* ================================================================== *)
(** * Outcomes of calls *)

(** The exceptions the modelled code can meet. *)
Inductive exn : Set :=
| AttributeError
| TypeError
| ValueError
| re_error              (* re.error: the pattern does not compile *)
| ConnectionError       (* requests.exceptions.ConnectionError *)
| HTTPError             (* requests.exceptions.HTTPError *)
| JSONDecodeError.      (* requests.exceptions.JSONDecodeError *)

(** [Unmodelled] marks an input outside the modelled fragment of a library
    (here: of the regular expression syntax); nothing is stated about what
    the code does there. *)
Inductive outcome (A : Type) : Type :=
| Returns (a : A)
| Raises (e : exn)
| Unmodelled.

Arguments Raises {A} e.
Arguments Unmodelled {A}.

Definition bind {A B} (m : outcome A) (k : A -> outcome B) : outcome B :=
  match m with
  | Returns a => k a
  | Raises e => Raises e
  | Unmodelled => Unmodelled
  end.

Notation "x <- m ;; k" := (bind m (fun x => k))
  (at level 61, m at next level, right associativity).

(** [try: body / except <caught>: handler]. *)
Definition try_except {A} (body : outcome A) (caught : exn -> bool)
    (handler : exn -> outcome A) : outcome A :=
  match body with
  | Raises e => if caught e then handler e else Raises e
  | other => other
  end.

Definition returns {A} (m : outcome A) : bool :=
  match m with Returns _ => true | _ => false end.

(* ================================================================== *)
(** * Regular expressions

    [pandas.Series.str.contains(pat, regex=True)] compiles [pat] with
    Python's [re] and tests each string cell with [re.search].  The model
    covers the patterns built from literal characters, [.], escaped
    punctuation and top-level [|]; it also recognises three ways in which
    [re.compile] certainly fails: a backslash that ends the pattern, a
    quantifier with nothing before it in its alternative, and a [[] that no
    []] follows.  Any other use of a metacharacter is [Unmodelled]. *)

Inductive atom : Set :=
| ALit (c : char)        (* this character *)
| AAny.                  (* [.]: any character but a newline *)

(** One alternative: a sequence of atoms. *)
Definition branch := list atom.

(** A compiled pattern: the alternatives separated by [|]. *)
Definition regex := list branch.

Definition is_ascii_alnum (c : char) : bool :=
  ((48 <=? c) && (c <=? 57) || (65 <=? c) && (c <=? 90)
   || (97 <=? c) && (c <=? 122))%N.

Definition push_atom (a : atom) (bs : regex) : regex :=
  match bs with
  | [] => [[a]]
  | b :: bs' => (a :: b) :: bs'
  end.

(** [at_start]: nothing has been read yet in the current alternative. *)
Fixpoint re_parse (at_start : bool) (p : pystr) : outcome regex :=
  match p with
  | [] => Returns [[]]
  | c :: p' =>
    if (c =? ch "|")%N then
      bs <- re_parse true p' ;; Returns ([] :: bs)
    else if (c =? ch "\")%N then
      match p' with
      | [] => Raises re_error                 (* bad escape (end of pattern) *)
      | e :: p'' =>
        if is_ascii_alnum e then Unmodelled
        else bs <- re_parse false p'' ;; Returns (push_atom (ALit e) bs)
      end
    else if (c =? ch ".")%N then
      bs <- re_parse false p' ;; Returns (push_atom AAny bs)
    else if (c =? ch "[")%N then
      if existsb (N.eqb (ch "]")) p' then Unmodelled
      else Raises re_error                    (* unterminated character set *)
    else if ((c =? ch "*") || (c =? ch "+") || (c =? ch "?"))%N then
      if at_start then Raises re_error        (* nothing to repeat *)
      else Unmodelled
    else if ((c =? ch "(") || (c =? ch ")") || (c =? ch "{")
             || (c =? ch "^") || (c =? ch "$"))%N then Unmodelled
    else
      bs <- re_parse false p' ;; Returns (push_atom (ALit c) bs)
  end.

(** [re.compile(pat)]. *)
Definition re_compile (pat : pystr) : outcome regex := re_parse true pat.

Definition atom_matches (a : atom) (c : char) : bool :=
  match a with
  | ALit x => (x =? c)%N
  | AAny => negb (c =? 10)%N
  end.

(** The alternative matches a prefix of [s]. *)
Fixpoint match_branch (b : branch) (s : pystr) : bool :=
  match b, s with
  | [], _ => true
  | _ :: _, [] => false
  | a :: b', c :: s' => atom_matches a c && match_branch b' s'
  end.

Definition match_here (rx : regex) (s : pystr) : bool :=
  existsb (fun b => match_branch b s) rx.

(** [rx.search(s) is not None]: some alternative matches at some position. *)
Fixpoint re_search (rx : regex) (s : pystr) : bool :=
  match_here rx s ||
  match s with
  | [] => false
  | _ :: s' => re_search rx s'
  end.

(** [needle in s] on strings. *)
Fixpoint contains (needle s : pystr) : bool :=
  starts_with needle s ||
  match s with
  | [] => false
  | _ :: s' => contains needle s'
  end.

(* ================================================================== *)
(** * pandas values and Series *)

Inductive pyval : Set :=
| PStr (s : pystr)
| PInt (z : Z)
| PNone.                 (* None / NaN / NA *)

Definition pyval_eqb (a b : pyval) : bool :=
  match a, b with
  | PStr x, PStr y => str_eqb x y
  | PInt x, PInt y => (x =? y)%Z
  | PNone, PNone => true
  | _, _ => false
  end.

(** A column. *)
Definition series := list pyval.

(** A boolean column; [None] is a missing entry. *)
Definition bool_series := list (option bool).

(** [data.unique()]: the distinct values in order of first appearance. *)
Fixpoint unique_go (seen : list pyval) (data : series) : series :=
  match data with
  | [] => []
  | v :: data' =>
    if existsb (pyval_eqb v) seen then unique_go seen data'
    else v :: unique_go (v :: seen) data'
  end.

Definition unique (data : series) : series := unique_go [] data.

(** [data.str.contains(pat, regex=True)] on a column the [.str] accessor
    accepts: the pattern is compiled once; a cell that is not a string
    gives a missing entry.  (pandas refuses the accessor, with
    [AttributeError], on a column it takes for numbers; the statements
    that must hold there too are made over [str_methods] below.) *)
Definition str_contains (data : series) (pat : pystr) : outcome bool_series :=
  rx <- re_compile pat ;;
  Returns (map (fun v => match v with
                         | PStr s => Some (re_search rx s)
                         | _ => None
                         end) data).

(** [data.isin(values)]: membership by equality; a missing cell is a member
    when [values] holds a missing value. *)
Definition isin (data : series) (values : list pyval) : bool_series :=
  map (fun v => Some (existsb (pyval_eqb v) values)) data.

(** A missing entry of a mask counts as [False], in [&] and in boolean
    indexing alike. *)
Definition truth (b : option bool) : bool :=
  match b with Some true => true | _ => false end.

(** [a & b] on boolean Series of the same index. *)
Fixpoint series_and (a b : bool_series) : bool_series :=
  match a, b with
  | x :: a', y :: b' => Some (truth x && truth y) :: series_and a' b'
  | _, _ => []
  end.

(** [df[mask]]: the rows at which the mask is [True]. *)
Fixpoint boolean_index {A} (df : list A) (mask : bool_series) : list A :=
  match df, mask with
  | r :: df', m :: mask' =>
    if truth m then r :: boolean_index df' mask'
    else boolean_index df' mask'
  | _, _ => []
  end.

(* ================================================================== *)
(** * DATA WRANGLING *)

(** The set comprehension of [extract_unique_values]: a Python [set] is
    kept as a list without repetition. *)
Fixpoint set_add (x : pystr) (s : list pystr) : list pystr :=
  match s with
  | [] => [x]
  | y :: s' => if str_eqb x y then s else y :: set_add x s'
  end.

Definition set_of (l : list pystr) : list pystr :=
  fold_left (fun s x => set_add x s) l [].

(** [sorted(l)] on strings. *)
Fixpoint insert_sorted (x : pystr) (l : list pystr) : list pystr :=
  match l with
  | [] => [x]
  | y :: l' => if str_leb x y then x :: l else y :: insert_sorted x l'
  end.

Definition sorted (l : list pystr) : list pystr :=
  fold_right insert_sorted [] l.

(** [item.split(sep)]: raises [ValueError] on an empty separator. *)
Definition split (s sep : pystr) : outcome (list pystr) :=
  match sep with
  | [] => Raises ValueError
  | _ :: _ => Returns (split_go sep O s)
  end.

(** The units one cell contributes:
    [unit.strip() for unit in item.split(sep) if unit], and nothing when
    the cell is not a [str]. *)
Definition units_of (sep : pystr) (item : pyval) : outcome (list pystr) :=
  match item with
  | PStr s =>
    us <- split s sep ;;
    Returns (map strip (filter (fun u => negb (str_eqb u [])) us))
  | _ => Returns []
  end.

Fixpoint units_of_all (sep : pystr) (items : series) : outcome (list pystr) :=
  match items with
  | [] => Returns []
  | item :: items' =>
    us <- units_of sep item ;;
    rest <- units_of_all sep items' ;;
    Returns (us ++ rest)
  end.

(** [extract_unique_values(data, sep)]. *)
Definition extract_unique_values (data : series) (sep : pystr)
    : outcome (list pystr) :=
  us <- units_of_all sep (unique data) ;;
  Returns (sorted (set_of us)).

(** The [examples] argument: [None] or a list. *)
Definition examples := option (list pyval).

(** [bool(examples)]. *)
Definition truthy (ex : examples) : bool :=
  match ex with
  | None | Some [] => false
  | Some (_ :: _) => true
  end.

(** [examples.any()]: neither [None] nor a list has the attribute. *)
Definition examples_any (ex : examples) : outcome bool := Raises AttributeError.

Definition is_AttributeError (e : exn) : bool :=
  match e with AttributeError => true | _ => false end.

(** ["|".join(examples)]: every item must be a [str]. *)
Fixpoint strs_of (l : list pyval) : outcome (list pystr) :=
  match l with
  | [] => Returns []
  | PStr s :: l' => ss <- strs_of l' ;; Returns (s :: ss)
  | _ :: _ => Raises TypeError
  end.

Definition join_examples (ex : examples) : outcome pystr :=
  match ex with
  | Some l => ss <- strs_of l ;; Returns (join [ch "|"] ss)
  | None => Raises TypeError
  end.

(** The pattern of the [regex] branch. *)
Definition regpat (ex : examples) : outcome pystr :=
  joined <- (if truthy ex then join_examples ex else Returns []) ;;
  Returns (replace (ch ")") [ch "\"; ch ")"]
             (replace (ch "(") [ch "\"; ch "("] joined)).

(** [bool_filter(data, examples, regex)]. *)
Definition bool_filter (data : series) (ex : examples) (regex : bool)
    : outcome bool_series :=
  if regex then
    pat <- regpat ex ;;
    str_contains data pat
  else
    examples_exist <- try_except (examples_any ex) is_AttributeError
                        (fun _ => Returns (truthy ex)) ;;
    Returns (isin data (if examples_exist
                        then match ex with Some l => l | None => [] end
                        else data)).

(** One publication record: a row of the metadata table.  [col_other]
    holds the descriptive columns the selector never reads. *)
Record row : Set := mkRow {
  col_urn : pyval;
  col_dhlabid : Z;
  col_title : pyval;
  col_authors : pyval;
  col_year : Z;
  col_langs : pyval;
  col_category : pyval;
  col_metatitle : pyval;
  col_other : list pyval
}.

Definition table := list row.

(** The keyword arguments of [filtered_selection]. *)
Record criteria : Set := mkCriteria {
  docids : examples;
  categories : examples;
  titles : examples;
  authors : examples;
  from_year : Z;
  to_year : Z;
  languages : examples;
  publishers : examples;
  places : examples
}.

(** The defaults of the signature. *)
Definition default_criteria : criteria :=
  mkCriteria None None None None 1814 1905 None None None.

(** [(from_year - 1 < meta_df["year"]) & (meta_df["year"] < to_year + 1)]. *)
Definition period_mask (meta_df : table) (from_y to_y : Z) : bool_series :=
  series_and
    (map (fun r => Some (from_y - 1 <? col_year r)%Z) meta_df)
    (map (fun r => Some (col_year r <? to_y + 1)%Z) meta_df).

Definition is_empty {A} (df : list A) : bool :=
  match df with [] => true | _ :: _ => false end.

(** [filtered_selection(meta_df, docids=..., ...)]. *)
Definition filtered_selection (meta_df : table) (c : criteria)
    : outcome table :=
  doc_sel <- bool_filter (map (fun r => PInt (col_dhlabid r)) meta_df)
               (docids c) false ;;
  cat_sel <- bool_filter (map col_category meta_df) (categories c) true ;;
  auth_sel <- bool_filter (map col_authors meta_df) (authors c) true ;;
  title_sel <- bool_filter (map col_title meta_df) (titles c) false ;;
  lang_sel <- bool_filter (map col_langs meta_df) (languages c) true ;;
  let period := period_mask meta_df (from_year c) (to_year c) in
  let selection :=
    boolean_index meta_df
      (series_and
         (series_and
            (series_and
               (series_and (series_and doc_sel cat_sel) auth_sel)
               title_sel)
            lang_sel)
         period) in
  Returns (if negb (is_empty selection) then selection else meta_df).

(* ================================================================== *)
(** * The HTTP fetchers

    The remote service is an input of the model: it is unreachable, or it
    answers with a status code and a body that parses as a JSON array of
    records or does not. *)

Record response (J : Type) : Type := mkResponse {
  status_code : Z;
  body : option J
}.

Inductive remote (J : Type) : Type :=
| Unreachable
| Answers (res : response J).

Arguments Unreachable {J}.

(** [requests.get(url)]. *)
Definition requests_get {J} (net : remote J) : outcome (response J) :=
  match net with
  | Unreachable => Raises ConnectionError
  | Answers res => Returns res
  end.

(** [res.json()]. *)
Definition res_json {J} (res : response J) : outcome J :=
  match body res with
  | Some j => Returns j
  | None => Raises JSONDecodeError
  end.

(** [res.raise_for_status()]: raises on status 400 to 599. *)
Definition raise_for_status {J} (res : response J) : outcome unit :=
  if ((400 <=? status_code res) && (status_code res <? 600))%Z
  then Raises HTTPError
  else Returns tt.

(** [except requests.exceptions.RequestException]. *)
Definition is_RequestException (e : exn) : bool :=
  match e with
  | ConnectionError | HTTPError | JSONDecodeError => true
  | _ => false
  end.

(** [imag_corpus()]; the table is the list of the records fetched and
    [pd.DataFrame()] is the empty list. *)
Definition imag_corpus {R} (net : remote (list R)) : outcome (list R) :=
  res <- requests_get net ;;
  if (status_code res =? 200)%Z then
    records <- res_json res ;;
    Returns records
  else
    Returns [].

(** [geo_locations(dhlabid)]. *)
Definition geo_locations {R} (net : remote (list R)) : outcome (list R) :=
  res <- requests_get net ;;
  data <- try_except
            (_ <- raise_for_status res ;;
             records <- res_json res ;;
             Returns records)
            is_RequestException
            (fun _ => Returns []) ;;
  Returns data.

(* ================================================================== *)
(** * What the specification says, row by row *)

(** A string cell holds one of the requested [values] as a substring. *)
Definition holds_any (values : list pystr) (cell : pyval) : bool :=
  match cell with
  | PStr s => existsb (fun v => contains v s) values
  | _ => false
  end.

(** [from_year <= year <= to_year]. *)
Definition in_period (from_y to_y : Z) (r : row) : bool :=
  ((from_y <=? col_year r) && (col_year r <=? to_y))%Z.

(** Exact membership in a candidate list, no constraint when the list is
    absent or empty. *)
Definition member_or_any (ex : examples) (v : pyval) : bool :=
  match ex with
  | None | Some [] => true
  | Some l => existsb (pyval_eqb v) l
  end.

(** The regex predicate of one cell under an already compiled pattern. *)
Definition cell_matches (rx : regex) (v : pyval) : bool :=
  match v with
  | PStr s => re_search rx s
  | _ => false
  end.

(** The row passes every predicate of the criteria; [rc], [ra] and [rl] are
    the compiled patterns of the category, author and language values. *)
Definition row_passes (c : criteria) (rc ra rl : regex) (r : row) : bool :=
  member_or_any (docids c) (PInt (col_dhlabid r))
  && cell_matches rc (col_category r)
  && cell_matches ra (col_authors r)
  && member_or_any (titles c) (col_title r)
  && cell_matches rl (col_langs r)
  && in_period (from_year c) (to_year c) r.

(** The compiled pattern of a list of requested values, when there is one. *)
Definition compiled (ex : examples) : outcome regex :=
  pat <- regpat ex ;; re_compile pat.

(** The subset of rows satisfying every predicate. *)
Definition selected (c : criteria) (meta_df : table) : outcome table :=
  rc <- compiled (categories c) ;;
  ra <- compiled (authors c) ;;
  rl <- compiled (languages c) ;;
  Returns (filter (row_passes c rc ra rl) meta_df).

(** The three patterns of the criteria compile. *)
Definition criteria_compile (c : criteria) : bool :=
  returns (compiled (categories c))
  && returns (compiled (authors c))
  && returns (compiled (languages c)).

(** A criteria field is absent or empty. *)
Definition unconstrained (ex : examples) : Prop := ex = None \/ ex = Some [].

(** A cell holds a string. *)
Definition is_str (v : pyval) : bool :=
  match v with PStr _ => true | _ => false end.

(** The characters, parentheses apart, that [re] does not read as
    themselves. *)
Definition is_special (c : char) : bool :=
  ((c =? ch "|") || (c =? ch "\") || (c =? ch ".") || (c =? ch "[")
   || (c =? ch "*") || (c =? ch "+") || (c =? ch "?") || (c =? ch "{")
   || (c =? ch "^") || (c =? ch "$"))%N.

(** A requested value without such characters. *)
Definition plain (v : pystr) : bool :=
  forallb (fun c => negb (is_special c)) v.

(** The two replacements of [bool_filter]. *)
Definition escape_parens (s : pystr) : pystr :=
  replace (ch ")") [ch "\"; ch ")"] (replace (ch "(") [ch "\"; ch "("] s).

(** The atoms of a literal text. *)
Definition literal (v : pystr) : branch := map ALit v.

(** [x] is what a non-empty unit of a string cell of [data] is stripped
    to. *)
Definition is_unit_of (sep : pystr) (data : series) (x : pystr) : Prop :=
  exists s u, In (PStr s) data /\ In u (split_go sep O s)
              /\ u <> [] /\ x = strip u.

(* ================================================================== *)
(** * Input options formatting *)

(** [str(n)] on an integer: its decimal digits, after a minus sign when it
    is negative. *)
Definition str_of_int (z : Z) : pystr :=
  map N_of_ascii
    (list_ascii_of_string (NilZero.string_of_int (Z.to_int z))).

(** The double quote. *)
Definition dquote : char := 34%N.

(** [format_single_author(author)]; [author.split(",")] has at least one
    unit, so [names[0]] is always there. *)
Definition format_single_author (author : pystr) : pystr :=
  let names := split_go [ch ","] O author in
  if (1 <? List.length names)%nat
  then strip (nth 1 names []) ++ [ch " "] ++ strip (nth 0 names [])
  else strip (nth 0 names []).

(** [format_author(option)]. *)
Definition format_author (opt : pystr) : pystr :=
  join (py ", ") (map format_single_author (split_go [ch "/"] O opt)).

(** [format_title(title, authors, year)] on a title string, an authors
    string or [None], and an integer year or [None]; an empty authors
    string and the year 0 are falsy. *)
Definition format_title (title : pystr) (authors : option pystr)
    (year : option Z) : pystr :=
  let author_name :=
    match authors with
    | Some ((_ :: _) as a) => format_author a ++ py " : "
    | _ => []
    end in
  let publication_year :=
    match year with
    | Some y => if (y =? 0)%Z then []
                else py " (" ++ str_of_int y ++ py ")"
    | None => []
    end in
  author_name ++ ([dquote] ++ title ++ [dquote]) ++ publication_year.

(** [combine_title_info(row)]: the title and authors cells are read as they
    are.  A number in the authors cell is falsy when 0 and has no [split]
    otherwise; what a missing cell does depends on which missing value it
    is ([None] is falsy, [NaN] is not), so it is left [Unmodelled]. *)
Definition combine_title_info (r : row) : outcome pystr :=
  match col_title r, col_authors r with
  | PStr t, PStr a => Returns (format_title t (Some a) (Some (col_year r)))
  | PInt t, PStr a =>
    Returns (format_title (str_of_int t) (Some a) (Some (col_year r)))
  | PStr t, PInt a =>
    if (a =? 0)%Z then Returns (format_title t None (Some (col_year r)))
    else Raises AttributeError
  | PInt t, PInt a =>
    if (a =? 0)%Z
    then Returns (format_title (str_of_int t) None (Some (col_year r)))
    else Raises AttributeError
  | _, _ => Unmodelled
  end.

(** The class ["[" + string.punctuation + "]"]: in it [+,-.] reads as the
    characters from the comma to the full stop and the backslash escapes
    the closing bracket behind it, so the class holds every ASCII
    punctuation character but the backslash. *)
Definition in_punctuation_class (c : char) : bool :=
  ((33 <=? c) && (c <=? 47) || (58 <=? c) && (c <=? 64) || (c =? 91)
   || (93 <=? c) && (c <=? 96) || (123 <=? c) && (c <=? 126))%N.

(** [re.sub("[" + punctuation + "]", "", title)]. *)
Definition remove_punctuation (title : pystr) : pystr :=
  filter (fun c => negb (in_punctuation_class c)) title.

(** [s.split()]: the runs of characters between white space. *)
Fixpoint split_ws (s : pystr) : list pystr :=
  match s with
  | [] => []
  | c :: s' =>
    if is_space c then split_ws s'
    else match s' with
         | [] => [[c]]
         | d :: _ =>
           if is_space d then [c] :: split_ws s'
           else cons_head c (split_ws s')
         end
  end.

(** [format_filename(full_title)]. *)
Definition format_filename (full_title : pystr) : pystr :=
  let title := strip (nth 0 (split_go [ch ":"] O full_title) []) in
  join [ch "-"] (split_ws (remove_punctuation title)).

(* ================================================================== *)
(** * Options from a subcorpus *)

(** The columns of the metadata table. *)
Inductive column : Set :=
| Curn | Cdhlabid | Ctitle | Cauthors | Cyear | Clangs | Ccategory
| Cmetatitle
| Cother (i : nat).

(** [row[col]]. *)
Definition cell (col : column) (r : row) : pyval :=
  match col with
  | Curn => col_urn r
  | Cdhlabid => PInt (col_dhlabid r)
  | Ctitle => col_title r
  | Cauthors => col_authors r
  | Cyear => PInt (col_year r)
  | Clangs => col_langs r
  | Ccategory => col_category r
  | Cmetatitle => col_metatitle r
  | Cother i => nth i (col_other r) PNone
  end.

(** [filter_unique_options(df, col, **kwargs)].  The dictionary of keyword
    arguments is handed to [filtered_selection] as its second positional
    argument, [docids]: it is truthy when it has a key, and [isin] reads
    it as the list of its keys. *)
Definition filter_unique_options {V} (df : table) (col : column)
    (kwargs : list (pystr * V)) : outcome (list pystr) :=
  subcorpus <- filtered_selection df
                 (mkCriteria (Some (map (fun kv => PStr (fst kv)) kwargs))
                    None None None 1814 1905 None None None) ;;
  extract_unique_values (map (cell col) subcorpus) (py "/").

(* ================================================================== *)
(** * The selection widgets

    What the user sets in the widgets is an input of the model. *)

Record widgets : Set := mkWidgets {
  chosen_categories : list pystr;
  chosen_years : Z * Z;
  chosen_authors : list pystr;
  chosen_language : list pystr;
  chosen_index : nat           (* the entry picked in the title box *)
}.

(** The criteria the widgets amount to: a multiselect with nothing
    chosen gives the empty list. *)
Definition widget_criteria (ui : widgets) : criteria :=
  mkCriteria None (Some (map PStr (chosen_categories ui))) None
    (Some (map PStr (chosen_authors ui)))
    (fst (chosen_years ui)) (snd (chosen_years ui))
    (Some (map PStr (chosen_language ui))) None None.

(** [selectbox(label, options)]: the option picked, [None] when there is
    no option. *)
Definition selectbox (options : series) (picked : nat) : pyval :=
  nth picked options PNone.

(** [column == value] on one cell: a missing cell or value equals nothing. *)
Definition cell_eq (a b : pyval) : bool :=
  match a, b with
  | PNone, _ | _, PNone => false
  | _, _ => pyval_eqb a b
  end.

(** The outcome of a call that can also raise [IndexError]. *)
Inductive app_outcome (A : Type) : Type :=
| Done (a : A)
| Failed (e : exn)       (* an exception of the functions above *)
| IndexError
| NotModelled.

Arguments Failed {A} e.
Arguments IndexError {A}.
Arguments NotModelled {A}.

Definition lift {A} (m : outcome A) : app_outcome A :=
  match m with
  | Returns a => Done a
  | Raises e => Failed e
  | Unmodelled => NotModelled
  end.

Definition app_bind {A B} (m : app_outcome A) (k : A -> app_outcome B)
    : app_outcome B :=
  match m with
  | Done a => k a
  | Failed e => Failed e
  | IndexError => IndexError
  | NotModelled => NotModelled
  end.

(** [array[0]]. *)
Definition first_value {A} (values : list A) : app_outcome A :=
  match values with
  | [] => IndexError
  | v :: _ => Done v
  end.

(** [corpus_parameters(metadata, param_box)]: the option lists are built,
    the table is narrowed by the chosen categories, authors, languages and
    years, the titles left are offered, and the rows of [metadata] with the
    picked title are returned after their first [dhlabid] has been
    written out. *)
Definition corpus_parameters (metadata : table) (ui : widgets)
    : app_outcome table :=
  app_bind (lift (extract_unique_values (map col_authors metadata) (py "/")))
    (fun _ =>
  app_bind (lift (extract_unique_values (map col_langs metadata) (py "/")))
    (fun _ =>
  app_bind (lift (filtered_selection metadata
                    (mkCriteria None
                       (Some (map PStr (chosen_categories ui)))
                       None
                       (Some (map PStr (chosen_authors ui)))
                       (fst (chosen_years ui)) (snd (chosen_years ui))
                       (Some (map PStr (chosen_language ui)))
                       None None)))
    (fun subcorpus =>
  let chosen_title :=
    selectbox (map col_metatitle subcorpus) (chosen_index ui) in
  let subcorpus' :=
    boolean_index metadata
      (map (fun r => Some (cell_eq (col_metatitle r) chosen_title))
         metadata) in
  app_bind (first_value (map col_dhlabid subcorpus'))
    (fun _ => Done subcorpus')))).

(* ================================================================== *)
(** * Reading JSON lines *)

(** [f.readlines()] on the text of the file as read in text mode: the
    lines, each with its newline. *)
Fixpoint readlines (text : pystr) : list pystr :=
  match text with
  | [] => []
  | c :: rest =>
    if (c =? 10)%N then [c] :: readlines rest
    else cons_head c (readlines rest)
  end.

(** A list comprehension over a call that can raise. *)
Fixpoint traverse {A B} (f : A -> outcome B) (l : list A)
    : outcome (list B) :=
  match l with
  | [] => Returns []
  | x :: l' => y <- f x ;; ys <- traverse f l' ;; Returns (y :: ys)
  end.

(** [read_jsonl(filename)] on the text of the file; [json_loads] is
    [json.loads]. *)
Definition read_jsonl {J} (json_loads : pystr -> outcome J) (text : pystr)
    : outcome (list J) :=
  traverse json_loads
    (filter (fun line => negb (is_empty line)) (readlines text)).

(* ================================================================== *)
(** * The string methods left open

    What the selection keeps of a table does not depend on what the string
    methods of pandas and [re] make of a column and of a pattern.
    [str_methods] gathers what they do, so that a statement over every
    [str_methods] holds of the real ones:
    - [accessor data] is [data.str]: it accepts the column or raises
      ([AttributeError] on a column it takes for numbers);
    - [compile pat] is [re.compile(pat)]: it raises [re.error] or gives the
      test [rx.search(s) is not None];
    - [na_entry] is the entry [contains] gives for a cell that is no
      string: missing on an object column, [False] on a column of the
      string dtype. *)
Record str_methods : Type := mkStrMethods {
  accessor : series -> outcome unit;
  compile : pystr -> outcome (pystr -> bool);
  na_entry : option bool
}.

(** [data.str.contains(pat, regex=True)]: the accessor is taken first, the
    pattern is compiled next. *)
Definition str_contains_with (lib : str_methods) (data : series)
    (pat : pystr) : outcome bool_series :=
  _ <- accessor lib data ;;
  found <- compile lib pat ;;
  Returns (map (fun v => match v with
                         | PStr s => Some (found s)
                         | _ => na_entry lib
                         end) data).

(** [bool_filter(data, examples, regex)] over [lib]. *)
Definition bool_filter_with (lib : str_methods) (data : series)
    (ex : examples) (regex : bool) : outcome bool_series :=
  if regex then
    pat <- regpat ex ;;
    str_contains_with lib data pat
  else
    examples_exist <- try_except (examples_any ex) is_AttributeError
                        (fun _ => Returns (truthy ex)) ;;
    Returns (isin data (if examples_exist
                        then match ex with Some l => l | None => [] end
                        else data)).

(** [filtered_selection(meta_df, docids=..., ...)] over [lib]. *)
Definition filtered_selection_with (lib : str_methods) (meta_df : table)
    (c : criteria) : outcome table :=
  doc_sel <- bool_filter_with lib
               (map (fun r => PInt (col_dhlabid r)) meta_df)
               (docids c) false ;;
  cat_sel <- bool_filter_with lib (map col_category meta_df)
               (categories c) true ;;
  auth_sel <- bool_filter_with lib (map col_authors meta_df)
                (authors c) true ;;
  title_sel <- bool_filter_with lib (map col_title meta_df)
                 (titles c) false ;;
  lang_sel <- bool_filter_with lib (map col_langs meta_df)
                (languages c) true ;;
  let period := period_mask meta_df (from_year c) (to_year c) in
  let selection :=
    boolean_index meta_df
      (series_and
         (series_and
            (series_and
               (series_and (series_and doc_sel cat_sel) auth_sel)
               title_sel)
            lang_sel)
         period) in
  Returns (if negb (is_empty selection) then selection else meta_df).

(** The string methods as this file models them: every column is
    accepted, the pattern goes through [re_compile] and [re_search], and a
    cell that is no string gets a missing entry. *)
Definition modelled : str_methods :=
  mkStrMethods (fun _ => Returns tt)
    (fun pat => rx <- re_compile pat ;; Returns (re_search rx))
    None.

(** The test a list of requested values amounts to on a column: the
    pattern is built, the accessor of the column is taken and the pattern
    is compiled. *)
Definition found_for (lib : str_methods) (data : series) (ex : examples)
    : outcome (pystr -> bool) :=
  pat <- regpat ex ;;
  _ <- accessor lib data ;;
  compile lib pat.

(** The test on one cell. *)
Definition cell_found (lib : str_methods) (found : pystr -> bool)
    (v : pyval) : bool :=
  match v with
  | PStr s => found s
  | _ => truth (na_entry lib)
  end.

(** The predicates on the fields other than the year. *)
Definition others_pass (lib : str_methods) (c : criteria)
    (fc fa fl : pystr -> bool) (r : row) : bool :=
  member_or_any (docids c) (PInt (col_dhlabid r))
  && cell_found lib fc (col_category r)
  && cell_found lib fa (col_authors r)
  && member_or_any (titles c) (col_title r)
  && cell_found lib fl (col_langs r).

(** Every predicate: those, and the year within its two bounds. *)
Definition row_passes_with (lib : str_methods) (c : criteria)
    (fc fa fl : pystr -> bool) (r : row) : bool :=
  others_pass lib c fc fa fl r
  && ((from_year c <=? col_year r) && (col_year r <=? to_year c))%Z.

(** The tests of the category, author and language values are there. *)
Definition tests_of (lib : str_methods) (meta_df : table) (c : criteria)
    (fc fa fl : pystr -> bool) : Prop :=
  found_for lib (map col_category meta_df) (categories c) = Returns fc
  /\ found_for lib (map col_authors meta_df) (authors c) = Returns fa
  /\ found_for lib (map col_langs meta_df) (languages c) = Returns fl.

(* ================================================================== *)
(** * Sample data *)

Open Scope string_scope.

Definition sample_row (id year : Z) (author lang cat : pyval) : row :=
  mkRow (PStr (py "URN:NBN:no-nb_digibok")) id (PStr (py "Et dukkehjem"))
        author year lang cat (PStr (py "Et dukkehjem")) [].

Definition ibsen : pyval := PStr (py "Ibsen, Henrik").
Definition skram : pyval := PStr (py "Skram, Amalie").
Definition nob : pyval := PStr (py "nob").
Definition fiction : pyval := PStr (py "Skjønnlitteratur").

(** Three records of the years 1820, 1850 and 1900. *)
Definition three_years : table :=
  [ sample_row 1 1820 ibsen nob fiction;
    sample_row 2 1850 skram nob fiction;
    sample_row 3 1900 ibsen nob fiction ].

(** A table reaching back before the default year window. *)
Definition old_and_new : table :=
  [ sample_row 1 1700 ibsen nob fiction;
    sample_row 2 1850 skram nob fiction ].

(** A table with a record whose author is not recorded. *)
Definition with_anonymous : table :=
  [ sample_row 1 1850 PNone nob fiction;
    sample_row 2 1850 skram nob fiction ].

Definition with_years (f t : Z) : criteria :=
  mkCriteria None None None None f t None None None.

Definition with_authors (l : list pyval) : criteria :=
  mkCriteria None None None (Some l) 1814 1905 None None None.

Close Scope string_scope.

(* ================================================================== *)
(** * Masks and boolean indexing *)

Unset Implicit Arguments.

Section Masks.
Variable A : Type.
Implicit Types (f g : A -> option bool) (l : list A).

Lemma series_and_map f g l :
  series_and (map f l) (map g l)
  = map (fun x => Some (truth (f x) && truth (g x))) l.
Proof.
  induction l as [|x l IH]; simpl; [reflexivity|].
  now rewrite IH.
Qed.

Lemma boolean_index_map f l :
  boolean_index l (map f l) = filter (fun x => truth (f x)) l.
Proof.
  induction l as [|x l IH]; simpl; [reflexivity|].
  rewrite IH. reflexivity.
Qed.

Lemma filter_all (p : A -> bool) l :
  (forall x, In x l -> p x = true) -> filter p l = l.
Proof.
  induction l as [|x l IH]; simpl; intros H; [reflexivity|].
  rewrite (H x (or_introl eq_refl)), IH; auto.
Qed.

Lemma filter_count (dec : forall x y : A, {x = y} + {x <> y})
    (p : A -> bool) l x :
  count_occ dec (filter p l) x <= count_occ dec l x.
Proof.
  induction l as [|y l IH]; simpl; [lia|].
  destruct (p y); simpl; destruct (dec y x); lia.
Qed.
End Masks.

Lemma period_mask_in_period meta_df f t :
  period_mask meta_df f t = map (fun r => Some (in_period f t r)) meta_df.
Proof.
  unfold period_mask. rewrite series_and_map.
  apply map_ext. intros r. unfold in_period. simpl. f_equal.
  destruct (Z.ltb_spec (f - 1) (col_year r)), (Z.leb_spec f (col_year r));
    try lia;
    destruct (Z.ltb_spec (col_year r) (t + 1)), (Z.leb_spec (col_year r) t);
    try lia; reflexivity.
Qed.

(* ================================================================== *)
(** * Equality of values *)

Lemma str_eqb_eq a b : str_eqb a b = true <-> a = b.
Proof.
  unfold str_eqb. destruct (list_eq_dec N.eq_dec a b); split;
    congruence.
Qed.

Lemma str_eqb_refl a : str_eqb a a = true.
Proof. now apply str_eqb_eq. Qed.

Lemma pyval_eqb_eq a b : pyval_eqb a b = true <-> a = b.
Proof.
  destruct a, b; simpl; split; try congruence.
  - intros H. apply str_eqb_eq in H. now subst.
  - intros [= ->]. apply str_eqb_refl.
  - intros H. apply Z.eqb_eq in H. now subst.
  - intros [= ->]. apply Z.eqb_refl.
Qed.

Lemma isin_In v l : existsb (pyval_eqb v) l = true <-> In v l.
Proof.
  rewrite existsb_exists. split.
  - intros (x & Hx & E). apply pyval_eqb_eq in E. now subst.
  - intros H. exists v. split; [assumption|]. now apply pyval_eqb_eq.
Qed.

Lemma pyval_eq_dec (a b : pyval) : {a = b} + {a <> b}.
Proof.
  destruct (pyval_eqb a b) eqn:E.
  - left. now apply pyval_eqb_eq.
  - right. intros H. apply pyval_eqb_eq in H. congruence.
Qed.

Lemma row_eq_dec (a b : row) : {a = b} + {a <> b}.
Proof.
  decide equality;
    try apply pyval_eq_dec; try apply Z.eq_dec;
    apply list_eq_dec, pyval_eq_dec.
Qed.

(* ================================================================== *)
(** * [bool_filter], branch by branch *)

Lemma bool_filter_isin data ex :
  bool_filter data ex false
  = Returns (map (fun v => Some (member_or_any ex v)) data).
Proof.
  unfold bool_filter, examples_any, try_except. simpl.
  unfold isin. f_equal.
  destruct ex as [[|x l]|]; simpl;
    try reflexivity;
    apply map_ext_in; intros v Hv; f_equal; now apply isin_In.
Qed.

Lemma bool_filter_regex data ex :
  bool_filter data ex true
  = (rx <- compiled ex ;;
     Returns (map (fun v => if is_str v then Some (cell_matches rx v)
                            else None) data)).
Proof.
  unfold bool_filter, compiled, str_contains.
  destruct (regpat ex) as [pat| |]; simpl; try reflexivity.
  destruct (re_compile pat) as [rx| |]; simpl; try reflexivity.
  f_equal. apply map_ext. now intros [s|z|].
Qed.

(* ================================================================== *)
(** * [filtered_selection] against the row-wise predicate *)

Lemma truth_cell rx v :
  truth (if is_str v then Some (cell_matches rx v) else None)
  = cell_matches rx v.
Proof. destruct v; simpl; try reflexivity. now destruct (re_search rx s). Qed.

Lemma truth_Some b : truth (Some b) = b.
Proof. now destruct b. Qed.

(** The column-wise masks of the code select the rows that pass the
    row-wise predicate; the patterns are compiled in the order category,
    authors, languages. *)
Lemma filtered_selection_spec meta_df c :
  filtered_selection meta_df c
  = (sel <- selected c meta_df ;;
     Returns (if is_empty sel then meta_df else sel)).
Proof.
  unfold filtered_selection, selected.
  rewrite !bool_filter_isin, !bool_filter_regex. simpl.
  destruct (compiled (categories c)) as [rc| |]; simpl; try reflexivity.
  destruct (compiled (authors c)) as [ra| |]; simpl; try reflexivity.
  destruct (compiled (languages c)) as [rl| |]; simpl; try reflexivity.
  rewrite period_mask_in_period, !map_map.
  rewrite !series_and_map, boolean_index_map.
  rewrite (filter_ext _ (row_passes c rc ra rl)).
  2: { intros r. unfold row_passes. now rewrite !truth_Some, !truth_cell. }
  now destruct (filter (row_passes c rc ra rl) meta_df).
Qed.

Lemma filtered_selection_returns meta_df c :
  returns (filtered_selection meta_df c) = criteria_compile c.
Proof.
  rewrite filtered_selection_spec. unfold selected, criteria_compile.
  destruct (compiled (categories c)); simpl; try reflexivity.
  destruct (compiled (authors c)); simpl; try reflexivity.
  destruct (compiled (languages c)); simpl; reflexivity.
Qed.

Lemma returns_true {A} (m : outcome A) :
  returns m = true -> exists a, m = Returns a.
Proof. destruct m; simpl; try discriminate. eauto. Qed.

Lemma selected_incl c meta_df sel :
  selected c meta_df = Returns sel ->
  exists p, sel = filter p meta_df.
Proof.
  unfold selected.
  destruct (compiled (categories c)) as [rc| |]; simpl; try discriminate.
  destruct (compiled (authors c)) as [ra| |]; simpl; try discriminate.
  destruct (compiled (languages c)) as [rl| |]; simpl; try discriminate.
  intros [= <-]. eauto.
Qed.

(* ================================================================== *)
(** * The selection, whatever the string methods do *)

Lemma bool_filter_with_isin lib data ex :
  bool_filter_with lib data ex false
  = Returns (map (fun v => Some (member_or_any ex v)) data).
Proof. exact (bool_filter_isin data ex). Qed.

Lemma bool_filter_with_regex lib data ex :
  bool_filter_with lib data ex true
  = (found <- found_for lib data ex ;;
     Returns (map (fun v => match v with
                            | PStr s => Some (found s)
                            | _ => na_entry lib
                            end) data)).
Proof.
  unfold bool_filter_with, found_for, str_contains_with.
  destruct (regpat ex) as [pat| |]; cbn [bind]; try reflexivity.
  destruct (accessor lib data) as [[]| |]; cbn [bind]; reflexivity.
Qed.

Lemma truth_cell_with lib found v :
  truth (match v with
         | PStr s => Some (found s)
         | _ => na_entry lib
         end)
  = cell_found lib found v.
Proof. destruct v; cbn [cell_found]; try reflexivity. apply truth_Some. Qed.

(** The column-wise masks select the rows that pass the row-wise
    predicate; the tests are made in the order category, authors,
    languages. *)
Lemma filtered_selection_with_spec lib meta_df c :
  filtered_selection_with lib meta_df c
  = (fc <- found_for lib (map col_category meta_df) (categories c) ;;
     fa <- found_for lib (map col_authors meta_df) (authors c) ;;
     fl <- found_for lib (map col_langs meta_df) (languages c) ;;
     Returns (if is_empty (filter (row_passes_with lib c fc fa fl) meta_df)
              then meta_df
              else filter (row_passes_with lib c fc fa fl) meta_df)).
Proof.
  unfold filtered_selection_with.
  rewrite !bool_filter_with_isin, !bool_filter_with_regex. cbn [bind].
  destruct (found_for lib (map col_category meta_df) (categories c))
    as [fc| |]; cbn [bind]; try reflexivity.
  destruct (found_for lib (map col_authors meta_df) (authors c))
    as [fa| |]; cbn [bind]; try reflexivity.
  destruct (found_for lib (map col_langs meta_df) (languages c))
    as [fl| |]; cbn [bind]; try reflexivity.
  rewrite period_mask_in_period, !map_map.
  rewrite !series_and_map, boolean_index_map.
  rewrite (filter_ext _ (row_passes_with lib c fc fa fl)).
  2: { intros r. unfold row_passes_with, others_pass, in_period.
       now rewrite !truth_Some, !truth_cell_with. }
  now destruct (filter (row_passes_with lib c fc fa fl) meta_df).
Qed.

(** A result: the tests were there, and it is the rows that pass or, when
    none does, the table. *)
Lemma filtered_selection_with_result lib meta_df c res :
  filtered_selection_with lib meta_df c = Returns res ->
  exists fc fa fl,
    tests_of lib meta_df c fc fa fl
    /\ (filter (row_passes_with lib c fc fa fl) meta_df <> []
        /\ res = filter (row_passes_with lib c fc fa fl) meta_df
        \/ filter (row_passes_with lib c fc fa fl) meta_df = []
           /\ res = meta_df).
Proof.
  rewrite filtered_selection_with_spec. unfold tests_of.
  destruct (found_for lib (map col_category meta_df) (categories c))
    as [fc| |]; cbn [bind]; try discriminate.
  destruct (found_for lib (map col_authors meta_df) (authors c))
    as [fa| |]; cbn [bind]; try discriminate.
  destruct (found_for lib (map col_langs meta_df) (languages c))
    as [fl| |]; cbn [bind]; try discriminate.
  intros [= <-]. exists fc, fa, fl. split; [auto|].
  destruct (filter (row_passes_with lib c fc fa fl) meta_df); cbn [is_empty].
  - now right.
  - left. split; [discriminate|reflexivity].
Qed.

Lemma filtered_selection_with_returns lib meta_df c fc fa fl :
  tests_of lib meta_df c fc fa fl ->
  exists res, filtered_selection_with lib meta_df c = Returns res.
Proof.
  intros (Hc & Ha & Hl). rewrite filtered_selection_with_spec, Hc, Ha, Hl.
  cbn [bind]. eauto.
Qed.

Lemma bool_filter_with_modelled data ex regex :
  bool_filter_with modelled data ex regex = bool_filter data ex regex.
Proof.
  destruct regex; [|reflexivity].
  unfold bool_filter_with, bool_filter, str_contains_with, str_contains.
  destruct (regpat ex) as [pat| |]; cbn [bind]; try reflexivity.
  cbn [modelled accessor compile na_entry bind].
  now destruct (re_compile pat).
Qed.

(** [filtered_selection] is [filtered_selection_with] at the string
    methods as modelled. *)
Lemma filtered_selection_with_modelled meta_df c :
  filtered_selection_with modelled meta_df c = filtered_selection meta_df c.
Proof.
  unfold filtered_selection_with, filtered_selection.
  now rewrite !bool_filter_with_modelled.
Qed.

(* ================================================================== *)
(** * The year window *)

(** C3. Year-range filtering is inclusive on both bounds.  The year mask
    of [filtered_selection] holds at a record iff
    [from_year <= year <= to_year]; and, whatever the string methods do,
    a result holds exactly the rows that pass the predicates on the other
    fields and have their year within the two bounds, both included (or
    the whole table when no row does): a record that passes the others
    and whose year is exactly [from_year] or exactly [to_year] of a
    non-empty window is in the result.  [filtered_selection] is the
    selection at the string methods as modelled. *)
Theorem year_range_inclusive :
  forall (lib : str_methods) (meta_df : table) (c : criteria),
  filtered_selection_with modelled meta_df c = filtered_selection meta_df c
  /\ period_mask meta_df (from_year c) (to_year c)
     = map (fun r => Some ((from_year c <=? col_year r)
                           && (col_year r <=? to_year c))%Z) meta_df
  /\ forall res, filtered_selection_with lib meta_df c = Returns res ->
     exists fc fa fl,
       tests_of lib meta_df c fc fa fl
       /\ ((forall r, In r res <->
              In r meta_df /\ others_pass lib c fc fa fl r = true
              /\ (from_year c <= col_year r <= to_year c)%Z)
           \/ (res = meta_df
               /\ forall r, In r meta_df ->
                    others_pass lib c fc fa fl r = true ->
                    ~ (from_year c <= col_year r <= to_year c)%Z))
       /\ (forall r, In r meta_df ->
             others_pass lib c fc fa fl r = true ->
             (from_year c <= to_year c)%Z ->
             col_year r = from_year c \/ col_year r = to_year c ->
             In r res).
Proof.
  intros lib meta_df c. split; [apply filtered_selection_with_modelled|].
  split; [apply period_mask_in_period|].
  intros res Hres.
  destruct (filtered_selection_with_result lib meta_df c res Hres)
    as (fc & fa & fl & Htests & Hcases).
  exists fc, fa, fl. split; [exact Htests|].
  assert (Hpass : forall r,
            row_passes_with lib c fc fa fl r = true <->
            others_pass lib c fc fa fl r = true
            /\ (from_year c <= col_year r <= to_year c)%Z).
  { intros r. unfold row_passes_with.
    rewrite !andb_true_iff, !Z.leb_le. tauto. }
  assert (Hsel : forall r,
            In r (filter (row_passes_with lib c fc fa fl) meta_df) <->
            In r meta_df /\ others_pass lib c fc fa fl r = true
            /\ (from_year c <= col_year r <= to_year c)%Z).
  { intros r. rewrite filter_In, Hpass. tauto. }
  destruct Hcases as [[Hne ->]|[Hnil ->]].
  - split; [left; exact Hsel|].
    intros r Hr Ho Hwin Hy. apply Hsel. split; [exact Hr|].
    split; [exact Ho|]. destruct Hy as [-> | ->]; lia.
  - split.
    + right. split; [reflexivity|]. intros r Hr Ho Hy.
      assert (Hin : In r (filter (row_passes_with lib c fc fa fl) meta_df))
        by (apply Hsel; auto).
      rewrite Hnil in Hin. destruct Hin.
    + intros r Hr _ _ _. exact Hr.
Qed.

Lemma year_range_inclusive_witness :
  exists res,
    filtered_selection three_years (with_years 1850 1900) = Returns res
    /\ In (sample_row 2 1850 skram nob fiction) res
    /\ In (sample_row 3 1900 ibsen nob fiction) res.
Proof.
  destruct (year_range_inclusive modelled three_years (with_years 1850 1900))
    as (E & _ & H).
  rewrite E in H.
  destruct (H [sample_row 2 1850 skram nob fiction;
               sample_row 3 1900 ibsen nob fiction] eq_refl)
    as (fc & fa & fl & Htests & _ & Hbound).
  injection (proj1 Htests) as <-.
  injection (proj1 (proj2 Htests)) as <-.
  injection (proj2 (proj2 Htests)) as <-.
  eexists. split; [reflexivity|].
  split; apply Hbound; cbn; auto; try reflexivity; try lia.
Defined.

(** The scenario of the specification: of the years 1820, 1850 and 1900
    the window 1860..1905 keeps 1900 alone, and the window 1700..1800,
    which keeps none, gives the three records back. *)
Example years_scenario :
  filtered_selection three_years (with_years 1860 1905)
  = Returns [sample_row 3 1900 ibsen nob fiction]
  /\ filtered_selection three_years (with_years 1700 1800)
     = Returns three_years.
Proof. split; vm_compute; reflexivity. Qed.

(* ================================================================== *)
(** * Exact membership *)

(** C5. With [regex=False], [bool_filter] marks a record iff its value is
    an exact member of the candidate list (equality of values, no pattern
    is involved); an empty or absent candidate list marks every row. *)
Theorem bool_filter_exact_membership : forall (data : series),
  (forall l, l <> [] ->
     bool_filter data (Some l) false
     = Returns (map (fun v => Some (existsb (pyval_eqb v) l)) data))
  /\ (forall v l, existsb (pyval_eqb v) l = true <-> In v l)
  /\ (forall ex, unconstrained ex ->
        bool_filter data ex false = Returns (map (fun _ => Some true) data)).
Proof.
  intros data. split; [|split].
  - intros l Hl. rewrite bool_filter_isin.
    destruct l as [|x l]; [contradiction|reflexivity].
  - intros v l. apply isin_In.
  - intros ex [-> | ->]; now rewrite bool_filter_isin.
Qed.

(** A candidate is compared as it stands: the title ["."] is no wildcard,
    and a title is not found by one of its parts. *)
Example titles_are_not_patterns :
  bool_filter [PStr (py "a"); PStr (py "."); PStr (py "Et dukkehjem")]
              (Some [PStr (py "."); PStr (py "dukkehjem")]) false
  = Returns [Some false; Some true; Some false].
Proof. vm_compute. reflexivity. Qed.

(* ================================================================== *)
(** * The fallback *)

(** C1, at the input where the code departs from it. The table is not
    empty, yet no result comes back, empty or not: the requested author
    value is an opening square bracket, which [bool_filter] does not
    escape, and compiling the pattern raises [re.error]. *)
Theorem fallback_lost_on_open_bracket :
  three_years <> []
  /\ filtered_selection three_years (with_authors [PStr (py "[")])
     = Raises re_error
  /\ forall res,
       filtered_selection three_years (with_authors [PStr (py "[")])
       <> Returns res.
Proof.
  assert (H : filtered_selection three_years (with_authors [PStr (py "[")])
              = Raises re_error).
  { vm_compute. reflexivity. }
  split; [discriminate|]. split; [exact H|].
  intros res. rewrite H. discriminate.
Qed.

(** The two cases on the sample table: an author who is there, and one who
    is not. *)
Example fallback_scenario :
  filtered_selection three_years (with_authors [skram])
  = Returns [sample_row 2 1850 skram nob fiction]
  /\ filtered_selection three_years (with_authors [PStr (py "Collett")])
     = Returns three_years.
Proof. split; vm_compute; reflexivity. Qed.

(** X17. The fallback: on a non-empty table, whatever the criteria and
    whatever the string methods do, a result of [filtered_selection] is
    never empty; it is the rows that pass every predicate or, when no row
    does, the whole table.  [filtered_selection] is the selection at the
    string methods as modelled. *)
Theorem filtered_selection_result_not_empty :
  forall (lib : str_methods) (meta_df res : table) (c : criteria),
  meta_df <> [] ->
  filtered_selection_with lib meta_df c = Returns res ->
  filtered_selection_with modelled meta_df c = filtered_selection meta_df c
  /\ res <> []
  /\ exists fc fa fl,
       tests_of lib meta_df c fc fa fl
       /\ (filter (row_passes_with lib c fc fa fl) meta_df <> []
           /\ res = filter (row_passes_with lib c fc fa fl) meta_df
           \/ filter (row_passes_with lib c fc fa fl) meta_df = []
              /\ res = meta_df).
Proof.
  intros lib meta_df res c Hne Hres.
  destruct (filtered_selection_with_result lib meta_df c res Hres)
    as (fc & fa & fl & Htests & Hcases).
  split; [apply filtered_selection_with_modelled|].
  split; [|now exists fc, fa, fl].
  destruct Hcases as [[Hsel ->]|[_ ->]]; assumption.
Qed.

Lemma filtered_selection_result_not_empty_witness :
  three_years <> []
  /\ [sample_row 2 1850 skram nob fiction] <> [].
Proof.
  split; [discriminate|].
  apply (filtered_selection_result_not_empty modelled three_years
           [sample_row 2 1850 skram nob fiction] (with_authors [skram])).
  - discriminate.
  - rewrite filtered_selection_with_modelled. vm_compute. reflexivity.
Defined.

(* ================================================================== *)
(** * The frame *)

(** C10. Frame: whatever the criteria and whatever the string methods do,
    a result of [filtered_selection] is exactly the subset of input rows
    passing every predicate or exactly the input table; each of its rows
    is a row of the input, unchanged, and occurs no more often than
    there.  A result there is whenever the three tests are there: the
    pattern is built, the accessor takes the column and the pattern
    compiles.  [filtered_selection] is the selection at the string methods
    as modelled. *)
Theorem filtered_selection_frame :
  forall (lib : str_methods) (meta_df : table) (c : criteria),
  filtered_selection_with modelled meta_df c = filtered_selection meta_df c
  /\ (forall res, filtered_selection_with lib meta_df c = Returns res ->
     (res = meta_df
      \/ exists fc fa fl,
           tests_of lib meta_df c fc fa fl
           /\ res = filter (row_passes_with lib c fc fa fl) meta_df)
     /\ (forall r, In r res -> In r meta_df)
     /\ (forall r, count_occ row_eq_dec res r
                   <= count_occ row_eq_dec meta_df r))
  /\ (forall fc fa fl, tests_of lib meta_df c fc fa fl ->
       exists res, filtered_selection_with lib meta_df c = Returns res).
Proof.
  intros lib meta_df c. split; [apply filtered_selection_with_modelled|].
  split.
  - intros res Hres.
    destruct (filtered_selection_with_result lib meta_df c res Hres)
      as (fc & fa & fl & Htests & [[_ ->]|[_ ->]]).
    + split; [right; now exists fc, fa, fl|]. split.
      * intros r Hr. now apply filter_In in Hr.
      * intros r. apply filter_count.
    + split; [now left|]. split; auto.
  - apply filtered_selection_with_returns.
Qed.

Lemma filtered_selection_frame_witness :
  exists res,
    filtered_selection three_years (with_authors [ibsen]) = Returns res
    /\ (forall r, In r res -> In r three_years).
Proof.
  destruct (filtered_selection_frame modelled three_years
              (with_authors [ibsen])) as (E & Hframe & Hret).
  rewrite E in Hframe, Hret.
  destruct (Hret (re_search [[]]) (re_search [literal (py "Ibsen, Henrik")])
              (re_search [[]])) as [res Hres].
  - repeat split.
  - exists res. split; [exact Hres|]. now apply Hframe.
Defined.

(* ================================================================== *)
(** * No criteria *)

Lemma compiled_unconstrained ex :
  unconstrained ex -> compiled ex = Returns [[]].
Proof. now intros [-> | ->]. Qed.

Lemma member_unconstrained ex v :
  unconstrained ex -> member_or_any ex v = true.
Proof. now intros [-> | ->]. Qed.

Lemma search_empty_pattern s : re_search [[]] s = true.
Proof. now destruct s. Qed.

(** C2, as the code has it. With every criteria field absent or empty and
    the default year bounds, [filtered_selection] returns the input table
    unchanged when every row has its year within 1814..1905 and strings in
    its category, authors and langs cells. *)
Theorem no_criteria_identity : forall (meta_df : table) (c : criteria),
  unconstrained (docids c) -> unconstrained (categories c) ->
  unconstrained (titles c) -> unconstrained (authors c) ->
  unconstrained (languages c) ->
  from_year c = 1814%Z -> to_year c = 1905%Z ->
  (forall r, In r meta_df ->
     (1814 <= col_year r <= 1905)%Z
     /\ is_str (col_category r) = true
     /\ is_str (col_authors r) = true
     /\ is_str (col_langs r) = true) ->
  filtered_selection meta_df c = Returns meta_df.
Proof.
  intros meta_df c Hd Hc Ht Ha Hl Hf Hto Hrows.
  rewrite filtered_selection_spec. unfold selected.
  rewrite !compiled_unconstrained by assumption. simpl.
  rewrite filter_all; [now destruct meta_df|].
  intros r Hr. destruct (Hrows r Hr) as (Hy & Hcat & Hau & Hla).
  unfold row_passes, in_period.
  rewrite !member_unconstrained, Hf, Hto by assumption.
  destruct (col_category r), (col_authors r), (col_langs r);
    try discriminate.
  simpl. rewrite !search_empty_pattern. simpl.
  apply andb_true_iff. split; apply Z.leb_le; lia.
Qed.

Lemma no_criteria_identity_witness :
  filtered_selection three_years default_criteria = Returns three_years.
Proof.
  apply (no_criteria_identity three_years default_criteria);
    try (left; reflexivity); try reflexivity.
  intros r [<- | [<- | [<- | []]]]; simpl; repeat split; lia.
Defined.

(** C2 fails as stated: the default bounds are a constraint of their own.
    With no criteria at all, a record of the year 1700 is left out when
    another record lies within 1814..1905. *)
Lemma identity_fails_outside_default_years :
  filtered_selection old_and_new default_criteria
  = Returns [sample_row 2 1850 skram nob fiction]
  /\ filtered_selection old_and_new default_criteria <> Returns old_and_new.
Proof. split; vm_compute; [reflexivity|discriminate]. Qed.

(* ================================================================== *)
(** * Requested values as one pattern *)

Lemma replace_app old new a b :
  replace old new (a ++ b) = replace old new a ++ replace old new b.
Proof. unfold replace. apply flat_map_app. Qed.

Lemma escape_parens_app a b :
  escape_parens (a ++ b) = escape_parens a ++ escape_parens b.
Proof. unfold escape_parens. now rewrite !replace_app. Qed.

Lemma escape_parens_cons c s :
  escape_parens (c :: s) = escape_parens [c] ++ escape_parens s.
Proof. apply (escape_parens_app [c] s). Qed.

Lemma push_atoms b0 bs v :
  fold_right push_atom (b0 :: bs) (literal v) = (literal v ++ b0) :: bs.
Proof.
  induction v as [|c v IH]; simpl; [reflexivity|]. now rewrite IH.
Qed.

(** One character of a plain value: a parenthesis is read through its
    escape, any other character as itself. *)
Lemma re_parse_plain_char b c rest :
  is_special c = false ->
  re_parse b (escape_parens [c] ++ rest)
  = (bs <- re_parse false rest ;; Returns (push_atom (ALit c) bs)).
Proof.
  unfold is_special. intros H.
  repeat (apply orb_false_iff in H as [H ?]).
  destruct (N.eqb_spec c (ch "(")) as [->|Hopen]; [reflexivity|].
  destruct (N.eqb_spec c (ch ")")) as [->|Hclose]; [reflexivity|].
  apply N.eqb_neq in Hopen, Hclose.
  unfold escape_parens, replace. cbn [flat_map app].
  rewrite Hopen. cbn [flat_map app]. rewrite Hclose. cbn [app re_parse].
  repeat match goal with
         | E : (_ =? _)%N = false |- _ => rewrite E; clear E
         end.
  reflexivity.
Qed.

(** A plain value in front of the end of the pattern or of a [|]. *)
Lemma re_parse_plain b v rest :
  plain v = true ->
  (forall b1 b2, re_parse b1 rest = re_parse b2 rest) ->
  re_parse b (escape_parens v ++ rest)
  = (bs <- re_parse true rest ;;
     Returns (fold_right push_atom bs (literal v))).
Proof.
  intros Hv Hrest. revert b.
  induction v as [|c v IH]; intros b; simpl.
  - rewrite (Hrest b true). now destruct (re_parse true rest).
  - simpl in Hv. apply andb_true_iff in Hv as [Hc Hv].
    apply negb_true_iff in Hc.
    rewrite escape_parens_cons, <- app_assoc.
    rewrite re_parse_plain_char by assumption.
    rewrite IH by assumption.
    now destruct (re_parse true rest).
Qed.

Lemma escape_parens_join vs :
  escape_parens (join [ch "|"] vs) = join [ch "|"] (map escape_parens vs).
Proof.
  induction vs as [|v [|w vs] IH]; try reflexivity.
  change (join [ch "|"] (v :: w :: vs))
    with (v ++ [ch "|"] ++ join [ch "|"] (w :: vs)).
  rewrite !escape_parens_app, IH. reflexivity.
Qed.

(** The pattern of plain values compiles to one literal alternative per
    value. *)
Lemma re_compile_plain vs :
  vs <> [] -> forallb plain vs = true ->
  re_compile (escape_parens (join [ch "|"] vs)) = Returns (map literal vs).
Proof.
  unfold re_compile. generalize true at 2 as b.
  induction vs as [|v [|w vs] IH]; intros b Hne Hall; [contradiction| |].
  - simpl in Hall. rewrite andb_true_r in Hall. simpl join.
    rewrite <- (app_nil_r (escape_parens v)).
    rewrite re_parse_plain by (assumption || reflexivity).
    simpl. now rewrite push_atoms, app_nil_r.
  - change (forallb plain (v :: w :: vs))
      with (plain v && forallb plain (w :: vs)) in Hall.
    apply andb_true_iff in Hall as [Hv Hall].
    change (join [ch "|"] (v :: w :: vs))
      with (v ++ [ch "|"] ++ join [ch "|"] (w :: vs)).
    rewrite escape_parens_app, escape_parens_app.
    rewrite re_parse_plain by (assumption || reflexivity).
    change (escape_parens [ch "|"]) with [ch "|"].
    change (re_parse true ([ch "|"] ++ escape_parens (join [ch "|"] (w :: vs))))
      with (bs <- re_parse true (escape_parens (join [ch "|"] (w :: vs))) ;;
            Returns ([] :: bs)).
    rewrite IH by (assumption || discriminate). simpl.
    now rewrite push_atoms, app_nil_r.
Qed.

Lemma match_branch_literal v s : match_branch (literal v) s = starts_with v s.
Proof.
  revert s. induction v as [|c v IH]; intros [|d s]; simpl;
    try reflexivity.
  now rewrite IH.
Qed.

Lemma existsb_orb {A} (f g : A -> bool) l :
  existsb (fun x => f x || g x) l = existsb f l || existsb g l.
Proof.
  induction l as [|x l IH]; simpl; [reflexivity|].
  rewrite IH. destruct (f x), (g x), (existsb f l); reflexivity.
Qed.

Lemma existsb_pointwise {A} (f g : A -> bool) l :
  (forall x, f x = g x) -> existsb f l = existsb g l.
Proof.
  intros H. induction l as [|x l IH]; simpl; [reflexivity|].
  now rewrite H, IH.
Qed.

Lemma match_here_literals vs s :
  match_here (map literal vs) s = existsb (fun v => starts_with v s) vs.
Proof.
  unfold match_here. induction vs as [|v vs IH]; simpl; [reflexivity|].
  now rewrite match_branch_literal, IH.
Qed.

(** Searching for literal alternatives is looking for one of the texts. *)
Lemma re_search_literals vs s :
  re_search (map literal vs) s = existsb (fun v => contains v s) vs.
Proof.
  induction s as [|c s IH]; simpl; rewrite match_here_literals.
  - rewrite orb_false_r. apply existsb_pointwise. intros v.
    now rewrite orb_false_r.
  - rewrite IH. symmetry.
    apply (existsb_orb (fun v => starts_with v (c :: s))
             (fun v => contains v s)).
Qed.

Lemma strs_of_PStr vs : strs_of (map PStr vs) = Returns vs.
Proof.
  induction vs as [|v vs IH]; simpl; [reflexivity|]. now rewrite IH.
Qed.

(** With plain requested values, a cell is marked when it is a string
    holding one of them, and a cell that is not a string gets a missing
    entry. *)
Lemma bool_filter_union data vs :
  vs <> [] -> forallb plain vs = true ->
  bool_filter data (Some (map PStr vs)) true
  = Returns (map (fun v => if is_str v then Some (holds_any vs v)
                           else None) data).
Proof.
  intros Hne Hall. rewrite bool_filter_regex. unfold compiled, regpat.
  assert (Ht : truthy (Some (map PStr vs)) = true).
  { destruct vs; [contradiction|reflexivity]. }
  rewrite Ht. unfold join_examples. rewrite strs_of_PStr. cbn [bind].
  fold (escape_parens (join [ch "|"] vs)).
  rewrite re_compile_plain by assumption. cbn [bind]. f_equal.
  apply map_ext. intros [s|z|]; simpl; try reflexivity.
  now rewrite re_search_literals.
Qed.

(* ================================================================== *)
(** * Missing cells under the pattern branch *)

(** C4, at the input where the code departs from it. With an empty or
    absent list of requested values the pattern branch of [bool_filter]
    marks the string cells and leaves the entry of any other cell missing,
    where the membership branch marks every row; in [filtered_selection] a
    missing entry counts as false, so a record without an author is left
    out although no author was asked for. *)
Theorem empty_examples_skip_missing_cells : forall (data : series),
  bool_filter data (Some []) true
  = Returns (map (fun v => if is_str v then Some true else None) data)
  /\ bool_filter data None true
     = Returns (map (fun v => if is_str v then Some true else None) data)
  /\ bool_filter data (Some []) false
     = Returns (map (fun _ => Some true) data)
  /\ bool_filter [ibsen; PNone] (Some []) true = Returns [Some true; None]
  /\ filtered_selection with_anonymous default_criteria
     = Returns [sample_row 2 1850 skram nob fiction].
Proof.
  intros data.
  assert (E : forall ex, unconstrained ex ->
            bool_filter data ex true
            = Returns (map (fun v => if is_str v then Some true else None)
                         data)).
  { intros ex Hex. rewrite bool_filter_regex, compiled_unconstrained by
      assumption.
    simpl. f_equal. apply map_ext. intros [s|z|]; simpl; try reflexivity.
    now rewrite search_empty_pattern. }
  split; [apply E; now right|].
  split; [apply E; now left|].
  split; [now rewrite bool_filter_isin|].
  split; vm_compute; reflexivity.
Qed.

(* ================================================================== *)
(** * Patterns that do not compile *)

Lemma compiled_open_bracket :
  compiled (Some [PStr (py "[")]) = Raises re_error.
Proof. reflexivity. Qed.

(** C6, at the input where the code departs from it. Only parentheses are
    escaped before the requested values are compiled as one pattern; a
    value holding another metacharacter, here an opening square bracket,
    makes [bool_filter] and [filtered_selection] raise [re.error] on every
    column and table. *)
Theorem open_bracket_raises : forall (data : series) (meta_df : table),
  bool_filter data (Some [PStr (py "[")]) true = Raises re_error
  /\ filtered_selection meta_df (with_authors [PStr (py "[")])
     = Raises re_error
  /\ bool_filter data (Some [PStr (py "(")]) true
     = Returns (map (fun v => if is_str v
                              then Some (cell_matches [[ALit (ch "(")]] v)
                              else None) data).
Proof.
  intros data meta_df. split; [|split].
  - now rewrite bool_filter_regex, compiled_open_bracket.
  - rewrite filtered_selection_spec. unfold selected. simpl authors.
    now rewrite compiled_open_bracket.
  - now rewrite bool_filter_regex.
Qed.

(* ================================================================== *)
(** * The fetchers when the service fails *)

(** An answer with an error status gives the empty table in both. *)
Lemma error_status_gives_empty_table {R} (s : Z) (b : option (list R)) :
  (400 <= s < 600)%Z ->
  imag_corpus (Answers (mkResponse s b)) = Returns []
  /\ geo_locations (Answers (mkResponse s b)) = Returns [].
Proof.
  intros Hs. unfold imag_corpus, geo_locations, raise_for_status. simpl.
  destruct (Z.eqb_spec s 200) as [E|_]; [lia|].
  destruct (Z.leb_spec 400 s); [|lia].
  destruct (Z.ltb_spec s 600); [|lia].
  now split.
Qed.

(** Any answer other than 200 gives the empty table in [imag_corpus]. *)
Lemma imag_corpus_not_200 {R} (s : Z) (b : option (list R)) :
  s <> 200%Z -> imag_corpus (Answers (mkResponse s b)) = Returns [].
Proof.
  intros Hs. unfold imag_corpus. simpl.
  now destruct (Z.eqb_spec s 200).
Qed.

(** C7, at the input where the code departs from it. When the remote end
    cannot be reached, [requests.get] raises; [imag_corpus] has no handler
    and [geo_locations] makes the call before its [try], so the
    [ConnectionError] reaches the caller of either. *)
Theorem unreachable_service_raises : forall (R : Type),
  @imag_corpus R Unreachable = Raises ConnectionError
  /\ @geo_locations R Unreachable = Raises ConnectionError
  /\ is_RequestException ConnectionError = true.
Proof. intros R. repeat split. Qed.

(* ================================================================== *)
(** * The order on strings and [sorted] *)

Lemma str_ltb_irrefl a : str_ltb a a = false.
Proof.
  induction a as [|x a IH]; simpl; [reflexivity|].
  now rewrite N.ltb_irrefl, N.eqb_refl.
Qed.

Lemma str_ltb_trans a b c :
  str_ltb a b = true -> str_ltb b c = true -> str_ltb a c = true.
Proof.
  revert b c. induction a as [|x a IH]; intros [|y b] [|z c]; simpl;
    try discriminate; try reflexivity.
  destruct (N.ltb_spec x y), (N.ltb_spec y z), (N.ltb_spec x z);
    try reflexivity; try lia;
    destruct (N.eqb_spec x y), (N.eqb_spec y z), (N.eqb_spec x z);
    try discriminate; try lia.
  apply IH.
Qed.

Lemma str_ltb_total a b :
  str_ltb a b = false -> str_ltb b a = false -> a = b.
Proof.
  revert b. induction a as [|x a IH]; intros [|y b]; simpl;
    try discriminate; try reflexivity.
  destruct (N.ltb_spec x y), (N.ltb_spec y x); try discriminate; try lia.
  destruct (N.eqb_spec x y), (N.eqb_spec y x); try lia.
  intros H1 H2. subst. f_equal. now apply IH.
Qed.

Lemma insert_sorted_In x y l :
  In x (insert_sorted y l) <-> x = y \/ In x l.
Proof.
  induction l as [|z l IH]; simpl.
  - intuition.
  - destruct (str_leb y z); simpl; rewrite ?IH; intuition.
Qed.

Lemma sorted_In x l : In x (sorted l) <-> In x l.
Proof.
  induction l as [|y l IH]; simpl; [reflexivity|].
  rewrite insert_sorted_In, IH. intuition.
Qed.

(** Inserting a new string into a strictly increasing list keeps it
    strictly increasing. *)
Lemma insert_sorted_strict x l :
  StronglySorted str_lt l -> ~ In x l ->
  StronglySorted str_lt (insert_sorted x l).
Proof.
  induction l as [|y l IH]; simpl; intros Hs Hn.
  - repeat constructor.
  - inversion Hs as [|? ? Hs' Hall]; subst.
    unfold str_leb. destruct (str_ltb y x) eqn:Hyx; simpl.
    + constructor; [apply IH; tauto|].
      apply Forall_forall. intros z Hz. apply insert_sorted_In in Hz.
      destruct Hz as [->|Hz]; [assumption|].
      rewrite Forall_forall in Hall. now apply Hall.
    + assert (Hxy : str_lt x y).
      { unfold str_lt. destruct (str_ltb x y) eqn:E; [reflexivity|].
        exfalso. apply Hn. left. symmetry. now apply str_ltb_total. }
      constructor; [assumption|].
      constructor; [assumption|].
      rewrite Forall_forall in *. intros z Hz.
      eapply str_ltb_trans; [exact Hxy|]. now apply Hall.
Qed.

Lemma sorted_strict l : NoDup l -> StronglySorted str_lt (sorted l).
Proof.
  induction 1 as [|x l Hx Hnd IH]; simpl; [constructor|].
  apply insert_sorted_strict; [assumption|].
  now rewrite sorted_In.
Qed.

(** On a list that is already strictly increasing [sorted] changes
    nothing. *)
Lemma sorted_id l : StronglySorted str_lt l -> sorted l = l.
Proof.
  induction 1 as [|x l Hs IH Hall]; simpl; [reflexivity|].
  rewrite IH. destruct l as [|y l]; simpl; [reflexivity|].
  inversion Hall as [|? ? Hxy _]; subst.
  unfold str_leb. destruct (str_ltb y x) eqn:E; simpl; [|reflexivity].
  pose proof (str_ltb_trans _ _ _ Hxy E) as H.
  now rewrite str_ltb_irrefl in H.
Qed.

Lemma strict_NoDup l : StronglySorted str_lt l -> NoDup l.
Proof.
  induction 1 as [|x l Hs IH Hall]; constructor; [|assumption].
  intros Hin. rewrite Forall_forall in Hall.
  pose proof (Hall x Hin) as H. unfold str_lt in H.
  now rewrite str_ltb_irrefl in H.
Qed.

(** A strictly increasing list is determined by its members: the result
    of [sorted] does not depend on the order in which the set is read. *)
Lemma strict_unique l1 l2 :
  StronglySorted str_lt l1 -> StronglySorted str_lt l2 ->
  (forall x, In x l1 <-> In x l2) -> l1 = l2.
Proof.
  intros H1. revert l2.
  induction H1 as [|x l1 Hs1 IH Hall1]; intros l2 H2 Hmem.
  - destruct l2 as [|y l2]; [reflexivity|].
    exfalso. apply (Hmem y). now left.
  - destruct H2 as [|y l2 Hs2 Hall2].
    + exfalso. apply (Hmem x). now left.
    + rewrite Forall_forall in Hall1, Hall2.
      assert (x = y) as ->.
      { destruct (proj1 (Hmem x) (or_introl eq_refl)) as [E|Hx];
          [now symmetry|].
        destruct (proj2 (Hmem y) (or_introl eq_refl)) as [E|Hy];
          [assumption|].
        pose proof (str_ltb_trans _ _ _ (Hall1 y Hy) (Hall2 x Hx)) as H.
        now rewrite str_ltb_irrefl in H. }
      f_equal. apply IH; [assumption|].
      intros z. split; intros Hz.
      * destruct (proj1 (Hmem z) (or_intror Hz)) as [E|Hz2];
          [|assumption].
        subst z. pose proof (Hall1 y Hz) as H. unfold str_lt in H.
        now rewrite str_ltb_irrefl in H.
      * destruct (proj2 (Hmem z) (or_intror Hz)) as [E|Hz1];
          [|assumption].
        subst z. pose proof (Hall2 y Hz) as H. unfold str_lt in H.
        now rewrite str_ltb_irrefl in H.
Qed.

(** So the list [sorted] returns for a set does not depend on the order
    in which the members of the set are met. *)
Lemma sorted_any_order l1 l2 :
  NoDup l1 -> NoDup l2 -> (forall x, In x l1 <-> In x l2) ->
  sorted l1 = sorted l2.
Proof.
  intros H1 H2 Hmem. apply strict_unique; try now apply sorted_strict.
  intros x. now rewrite !sorted_In.
Qed.

(* ================================================================== *)
(** * The set of units *)

Lemma set_add_In x y s : In x (set_add y s) <-> x = y \/ In x s.
Proof.
  induction s as [|z s IH]; simpl.
  - intuition.
  - destruct (str_eqb y z) eqn:E; simpl.
    + apply str_eqb_eq in E. subst. intuition.
    + rewrite IH. intuition.
Qed.

Lemma set_add_NoDup y s : NoDup s -> NoDup (set_add y s).
Proof.
  induction 1 as [|z s Hz Hnd IH]; simpl.
  - repeat constructor. intros [].
  - destruct (str_eqb y z) eqn:E; [now constructor|].
    constructor; [|assumption].
    rewrite set_add_In. intros [->|H]; [|contradiction].
    now rewrite str_eqb_refl in E.
Qed.

Lemma set_add_new y s : ~ In y s -> set_add y s = s ++ [y].
Proof.
  induction s as [|z s IH]; simpl; intros Hn; [reflexivity|].
  destruct (str_eqb y z) eqn:E.
  - apply str_eqb_eq in E. subst. exfalso. apply Hn. now left.
  - rewrite IH; [reflexivity|]. tauto.
Qed.

Lemma fold_set_add_In x l acc :
  In x (fold_left (fun s y => set_add y s) l acc) <-> In x acc \/ In x l.
Proof.
  revert acc. induction l as [|y l IH]; intros acc; simpl.
  - intuition.
  - rewrite IH, set_add_In. intuition.
Qed.

Lemma fold_set_add_NoDup l acc :
  NoDup acc -> NoDup (fold_left (fun s y => set_add y s) l acc).
Proof.
  revert acc. induction l as [|y l IH]; intros acc H; simpl;
    [assumption|].
  apply IH. now apply set_add_NoDup.
Qed.

Lemma fold_set_add_new l acc :
  NoDup (acc ++ l) ->
  fold_left (fun s y => set_add y s) l acc = acc ++ l.
Proof.
  revert acc. induction l as [|y l IH]; intros acc H; simpl.
  - now rewrite app_nil_r.
  - rewrite set_add_new.
    + rewrite IH; rewrite <- app_assoc; [reflexivity|assumption].
    + apply NoDup_remove_2 in H. intros Hin. apply H.
      apply in_or_app. now left.
Qed.

Lemma set_of_In x l : In x (set_of l) <-> In x l.
Proof. unfold set_of. rewrite fold_set_add_In. simpl. tauto. Qed.

Lemma set_of_NoDup l : NoDup (set_of l).
Proof. apply fold_set_add_NoDup. constructor. Qed.

Lemma set_of_id l : NoDup l -> set_of l = l.
Proof. intros H. unfold set_of. now rewrite fold_set_add_new. Qed.

(** [unique] keeps the values and drops the repetitions. *)
Lemma unique_go_In v seen data :
  In v (unique_go seen data) <-> In v data /\ ~ In v seen.
Proof.
  revert seen. induction data as [|w data IH]; intros seen; simpl.
  - tauto.
  - destruct (existsb (pyval_eqb w) seen) eqn:E.
    + apply isin_In in E. rewrite IH. split.
      * intuition.
      * intros [[->|H] Hn]; [contradiction|tauto].
    + assert (Hw : ~ In w seen).
      { intros H. apply isin_In in H. congruence. }
      simpl. rewrite IH. simpl. split.
      * intros [->|[H Hn]]; [tauto|]. split; [tauto|].
        intros Hs. apply Hn. now right.
      * intros [[->|H] Hn]; [now left|].
        destruct (pyval_eq_dec w v) as [->|Hne]; [now left|].
        right. split; [assumption|]. intros [E'|Hs]; tauto.
Qed.

Lemma unique_In v data : In v (unique data) <-> In v data.
Proof. unfold unique. rewrite unique_go_In. simpl. tauto. Qed.

Lemma unique_go_id seen data :
  NoDup data -> (forall v, In v data -> ~ In v seen) ->
  unique_go seen data = data.
Proof.
  intros Hnd. revert seen.
  induction Hnd as [|w data Hw Hnd IH]; intros seen Hdis; simpl;
    [reflexivity|].
  destruct (existsb (pyval_eqb w) seen) eqn:E.
  - apply isin_In in E. exfalso. apply (Hdis w); [now left|assumption].
  - f_equal. apply IH. intros v Hv [<-|Hs]; [contradiction|].
    apply (Hdis v); [now right|assumption].
Qed.

Lemma unique_id data : NoDup data -> unique data = data.
Proof. intros H. apply unique_go_id; [assumption|]. intros v _ []. Qed.

(* ================================================================== *)
(** * What [extract_unique_values] returns *)

Lemma units_of_str sep s :
  sep <> [] ->
  units_of sep (PStr s)
  = Returns (map strip (filter (fun u => negb (str_eqb u []))
                          (split_go sep O s))).
Proof. intros H. destruct sep; [contradiction|reflexivity]. Qed.

Lemma nonempty_unit u : negb (str_eqb u []) = true <-> u <> [].
Proof.
  rewrite negb_true_iff. split.
  - intros H E. apply str_eqb_eq in E. congruence.
  - intros H. destruct (str_eqb u []) eqn:E; [|reflexivity].
    apply str_eqb_eq in E. contradiction.
Qed.

Lemma units_of_all_spec sep items :
  sep <> [] ->
  exists us, units_of_all sep items = Returns us
             /\ forall x, In x us <-> is_unit_of sep items x.
Proof.
  intros Hsep. induction items as [|item items (us & Hus & IH)]; simpl.
  - exists []. split; [reflexivity|]. intros x. split; [intros []|].
    intros (s & u & [] & _).
  - destruct item as [s|z|].
    + rewrite units_of_str, Hus by assumption. simpl.
      eexists. split; [reflexivity|]. intros x.
      rewrite in_app_iff, in_map_iff, IH. split.
      * intros [(u & <- & Hu)|(s' & u & Hs' & Hrest)].
        -- apply filter_In in Hu as [Hu Hne]. apply nonempty_unit in Hne.
           exists s, u. simpl. auto.
        -- exists s', u. simpl. tauto.
      * intros (s' & u & [E|Hs'] & Hu & Hne & ->).
        -- injection E as ->. left. exists u. split; [reflexivity|].
           apply filter_In. split; [assumption|]. now apply nonempty_unit.
        -- right. exists s', u. auto.
    + rewrite Hus. simpl. exists us. split; [reflexivity|]. intros x.
      rewrite IH. split; intros (s & u & Hs & Hrest).
      * exists s, u. simpl. tauto.
      * destruct Hs as [E|Hs]; [discriminate|]. exists s, u. tauto.
    + rewrite Hus. simpl. exists us. split; [reflexivity|]. intros x.
      rewrite IH. split; intros (s & u & Hs & Hrest).
      * exists s, u. simpl. tauto.
      * destruct Hs as [E|Hs]; [discriminate|]. exists s, u. tauto.
Qed.

Lemma is_unit_of_ext sep d1 d2 x :
  (forall v, In v d1 <-> In v d2) ->
  is_unit_of sep d1 x <-> is_unit_of sep d2 x.
Proof.
  intros H. split; intros (s & u & Hs & Hrest); exists s, u;
    (split; [now apply H|assumption]).
Qed.

(** With a non-empty separator [extract_unique_values] returns, strictly
    increasing and so without repetition, exactly the strings that the
    non-empty units of the string cells are stripped to; cells that are
    not strings contribute nothing. *)
Lemma extract_unique_values_spec data sep :
  sep <> [] ->
  exists res, extract_unique_values data sep = Returns res
              /\ StronglySorted str_lt res
              /\ forall x, In x res <-> is_unit_of sep data x.
Proof.
  intros Hsep. unfold extract_unique_values.
  destruct (units_of_all_spec sep (unique data) Hsep) as (us & Hus & Hmem).
  rewrite Hus. simpl. eexists. split; [reflexivity|]. split.
  - apply sorted_strict, set_of_NoDup.
  - intros x. rewrite sorted_In, set_of_In, Hmem.
    apply is_unit_of_ext. intros v. apply unique_In.
Qed.

(** An empty separator makes [split] raise as soon as there is a string
    cell. *)
Lemma extract_unique_values_empty_sep s data :
  extract_unique_values (PStr s :: data) [] = Raises ValueError.
Proof. reflexivity. Qed.

(* ================================================================== *)
(** * [strip], [contains] and [split] *)

Lemma lstrip_suffix s : exists a, s = a ++ lstrip s.
Proof.
  induction s as [|c s (a & IH)]; simpl.
  - now exists [].
  - destruct (is_space c).
    + exists (c :: a). simpl. now f_equal.
    + now exists [].
Qed.

Lemma lstrip_idem s : lstrip (lstrip s) = lstrip s.
Proof.
  induction s as [|c s IH]; simpl; [reflexivity|].
  destruct (is_space c) eqn:E; [assumption|].
  simpl. now rewrite E.
Qed.

Lemma lstrip_head s :
  match lstrip s with [] => True | c :: _ => is_space c = false end.
Proof.
  induction s as [|c s IH]; simpl; [exact I|].
  now destruct (is_space c) eqn:E.
Qed.

Lemma lstrip_fixed s :
  match s with [] => True | c :: _ => is_space c = false end ->
  lstrip s = s.
Proof. destruct s as [|c s]; simpl; [reflexivity|]. now intros ->. Qed.

Lemma rstrip_prefix s : exists b, s = rstrip s ++ b.
Proof.
  unfold rstrip. destruct (lstrip_suffix (rev s)) as (a & Ha).
  exists (rev a). rewrite <- rev_app_distr, <- Ha. now rewrite rev_involutive.
Qed.

Lemma rstrip_idem s : rstrip (rstrip s) = rstrip s.
Proof. unfold rstrip. now rewrite rev_involutive, lstrip_idem. Qed.

(** What [strip] returns lies inside its argument. *)
Lemma strip_inside s : exists a b, s = a ++ strip s ++ b.
Proof.
  unfold strip. destruct (lstrip_suffix s) as (a & Ha).
  destruct (rstrip_prefix (lstrip s)) as (b & Hb).
  exists a, b. now rewrite <- Hb.
Qed.

Lemma strip_idem s : strip (strip s) = strip s.
Proof.
  unfold strip at 1.
  assert (H : lstrip (strip s) = strip s).
  { apply lstrip_fixed. unfold strip.
    destruct (rstrip_prefix (lstrip s)) as (b & Hb).
    pose proof (lstrip_head s) as Hh. rewrite Hb in Hh.
    now destruct (rstrip (lstrip s)). }
  rewrite H. unfold strip. apply rstrip_idem.
Qed.

Lemma starts_with_iff p s : starts_with p s = true <-> exists q, s = p ++ q.
Proof.
  revert s. induction p as [|x p IH]; intros s; simpl.
  - split; [intros _; now exists s|reflexivity].
  - destruct s as [|y s].
    + split; [discriminate|]. intros (q & Hq). discriminate.
    + rewrite andb_true_iff, IH, N.eqb_eq. split.
      * intros [-> (q & ->)]. now exists q.
      * intros (q & [= -> ->]). split; [reflexivity|]. now exists q.
Qed.

Lemma contains_iff n s :
  contains n s = true <-> exists p q, s = p ++ n ++ q.
Proof.
  induction s as [|c s IH]; simpl; rewrite orb_true_iff, starts_with_iff.
  - split.
    + intros [(q & Hq)|H]; [|discriminate]. now exists [], q.
    + intros ([|x p] & q & Hq); [|discriminate]. left. now exists q.
  - rewrite IH. split.
    + intros [(q & Hq)|(p & q & ->)]; [now exists [], q|].
      now exists (c :: p), q.
    + intros ([|x p] & q & Hq); [left; now exists q|].
      right. injection Hq as -> ->. now exists p, q.
Qed.

Lemma contains_inside n a m b :
  contains n (a ++ m ++ b) = false -> contains n m = false.
Proof.
  intros H. destruct (contains n m) eqn:E; [|reflexivity].
  apply contains_iff in E as (p & q & ->).
  assert (C : contains n (a ++ (p ++ n ++ q) ++ b) = true).
  { apply contains_iff. exists (a ++ p), (q ++ b).
    now rewrite <- !app_assoc. }
  congruence.
Qed.

Lemma split_go_nonempty sep k s : split_go sep k s <> [].
Proof.
  revert k. induction s as [|c s IH]; intros k; simpl; [discriminate|].
  destruct k; [|apply IH].
  destruct (starts_with sep (c :: s)); [discriminate|].
  destruct (split_go sep 0 s); discriminate.
Qed.

Lemma join_cons sep p l : l <> [] -> join sep (p :: l) = p ++ sep ++ join sep l.
Proof. destruct l; [contradiction|reflexivity]. Qed.

Lemma join_cons_head sep c l :
  l <> [] -> join sep (cons_head c l) = c :: join sep l.
Proof.
  destruct l as [|u [|v l]]; [contradiction| |]; reflexivity.
Qed.

(** Joining the units with the separator gives the string back. *)
Lemma join_split_go sep k s :
  sep <> [] -> join sep (split_go sep k s) = skipn k s.
Proof.
  intros Hsep. revert k.
  induction s as [|c s IH]; intros k; simpl.
  - now destruct k.
  - destruct k; [|apply IH].
    destruct (starts_with sep (c :: s)) eqn:E.
    + rewrite join_cons by apply split_go_nonempty. rewrite IH. simpl.
      apply starts_with_iff in E as (q & Hq).
      destruct sep as [|x sep]; [contradiction|].
      injection Hq as -> ->. simpl. f_equal.
      rewrite Nat.sub_0_r, skipn_app, skipn_all, Nat.sub_diag. reflexivity.
    + rewrite join_cons_head by apply split_go_nonempty.
      now rewrite IH.
Qed.

Lemma join_split sep s : sep <> [] -> join sep (split_go sep O s) = s.
Proof. intros H. now rewrite join_split_go. Qed.

Lemma split_go_head sep k s u us :
  sep <> [] -> split_go sep k s = u :: us -> exists q, skipn k s = u ++ q.
Proof.
  intros Hsep E. rewrite <- (join_split_go sep k s Hsep), E.
  destruct us; simpl; [exists []; now rewrite app_nil_r|eauto].
Qed.

Lemma starts_with_app p s q :
  starts_with p s = true -> starts_with p (s ++ q) = true.
Proof.
  rewrite !starts_with_iff. intros (r & ->). exists (r ++ q).
  now rewrite app_assoc.
Qed.

(** No unit holds the separator. *)
Lemma units_without_sep sep k s u :
  sep <> [] -> In u (split_go sep k s) -> contains sep u = false.
Proof.
  intros Hsep. revert k u.
  assert (Hnil : contains sep [] = false).
  { destruct sep; [contradiction|reflexivity]. }
  induction s as [|c s IH]; intros k u; simpl.
  - intros [<-|[]]. exact Hnil.
  - destruct k; [|apply IH].
    destruct (starts_with sep (c :: s)) eqn:E.
    + intros [<-|H]; [exact Hnil|]. eapply IH, H.
    + destruct (split_go sep 0 s) as [|u0 us] eqn:Es.
      { now apply split_go_nonempty in Es. }
      simpl. intros [<-|H].
      * simpl. rewrite (IH 0%nat u0) by (rewrite Es; now left).
        rewrite orb_false_r.
        destruct (split_go_head sep 0 s u0 us Hsep Es) as (q & Hq).
        simpl in Hq. subst s.
        destruct (starts_with sep (c :: u0)) eqn:E0; [|reflexivity].
        apply (starts_with_app _ _ q) in E0. simpl in E0. congruence.
      * apply (IH 0%nat). rewrite Es. now right.
Qed.

(** A string without the separator is its own single unit. *)
Lemma split_go_whole sep s :
  contains sep s = false -> split_go sep O s = [s].
Proof.
  induction s as [|c s IH]; simpl; [reflexivity|].
  intros H. apply orb_false_iff in H as [H1 H2].
  simpl in H1. rewrite H1. now rewrite IH.
Qed.

(* ================================================================== *)
(** * A second application *)

Lemma NoDup_PStr l : NoDup l -> NoDup (map PStr l).
Proof.
  induction 1 as [|x l Hx Hnd IH]; simpl; constructor; [|assumption].
  rewrite in_map_iff. intros (y & [= ->] & Hy). contradiction.
Qed.

Lemma units_of_all_fixed sep l :
  sep <> [] ->
  Forall (fun x => x <> [] /\ contains sep x = false /\ strip x = x) l ->
  units_of_all sep (map PStr l) = Returns l.
Proof.
  intros Hsep. induction 1 as [|x l (Hne & Hc & Hs) Hall IH];
    [reflexivity|].
  cbn [map units_of_all]. rewrite units_of_str, IH by assumption.
  rewrite split_go_whole by assumption. simpl.
  apply nonempty_unit in Hne. rewrite Hne. simpl. now rewrite Hs.
Qed.

(** Unless the result holds the empty string, applying
    [extract_unique_values] to its own result returns that result. *)
Lemma extract_unique_values_twice data sep res :
  sep <> [] ->
  extract_unique_values data sep = Returns res ->
  ~ In [] res ->
  extract_unique_values (map PStr res) sep = Returns res.
Proof.
  intros Hsep Hres Hblank.
  destruct (extract_unique_values_spec data sep Hsep)
    as (res' & Hres' & Hsorted & Hmem).
  rewrite Hres in Hres'. injection Hres' as <-.
  pose proof (strict_NoDup res Hsorted) as Hnd.
  unfold extract_unique_values.
  rewrite unique_id by now apply NoDup_PStr.
  rewrite units_of_all_fixed; [simpl| assumption |].
  - now rewrite set_of_id, sorted_id.
  - apply Forall_forall. intros x Hx. split; [|split].
    + intros ->. contradiction.
    + apply Hmem in Hx as (s & u & _ & Hu & _ & ->).
      apply (units_without_sep sep 0 s u Hsep) in Hu.
      destruct (strip_inside u) as (a & b & Hab).
      apply (contains_inside sep a (strip u) b). now rewrite <- Hab.
    + apply Hmem in Hx as (s & u & _ & _ & _ & ->). apply strip_idem.
Qed.

(** A unit of blanks puts the empty string into the result. *)
Lemma blank_unit_in_result data sep s u :
  sep <> [] -> In (PStr s) data -> In u (split_go sep O s) ->
  u <> [] -> strip u = [] ->
  exists res, extract_unique_values data sep = Returns res /\ In [] res.
Proof.
  intros Hsep Hs Hu Hne Hblank.
  destruct (extract_unique_values_spec data sep Hsep)
    as (res & Hres & _ & Hmem).
  exists res. split; [assumption|].
  apply Hmem. exists s, u. auto.
Qed.

(* ================================================================== *)
(** * Units of blanks *)

(** C8, at the input where the code departs from it. A unit is tested for
    emptiness before it is stripped: a unit of blanks passes the test and
    is stripped to the empty string, which the result then holds. *)
Theorem blank_unit_gives_empty_string :
  extract_unique_values [PStr (py "a/ /b")] (py "/")
  = Returns [py ""; py "a"; py "b"]
  /\ extract_unique_values [PStr (py "a//b")] (py "/")
     = Returns [py "a"; py "b"].
Proof. split; vm_compute; reflexivity. Qed.

(** The scenario of the specification. *)
Example authors_scenario :
  split (py "Ibsen, Henrik/Bjørnson, Bjørnstjerne") (py "/")
  = Returns [py "Ibsen, Henrik"; py "Bjørnson, Bjørnstjerne"]
  /\ extract_unique_values
       [PStr (py "Ibsen, Henrik/Bjørnson, Bjørnstjerne"); PNone; PInt 1879;
        PStr (py " Ibsen, Henrik ")] (py "/")
     = Returns [py "Bjørnson, Bjørnstjerne"; py "Ibsen, Henrik"].
Proof. split; vm_compute; reflexivity. Qed.

(** C9, at the input where the code departs from it. The empty string a
    unit of blanks leaves in the result is dropped when the function is
    applied to that result, so the second application differs from the
    first. *)
Theorem second_pass_drops_empty_string :
  extract_unique_values [PStr (py "a/ ")] (py "/")
  = Returns [py ""; py "a"]
  /\ extract_unique_values (map PStr [py ""; py "a"]) (py "/")
     = Returns [py "a"].
Proof. split; vm_compute; reflexivity. Qed.

(* ================================================================== *)
(** * What the code guarantees instead *)

(** X1. With a non-empty separator, [extract_unique_values] returns a
    strictly increasing list (sorted, without repetition) whose members
    are exactly the strings that the non-empty units of the string cells
    are stripped to; cells that are not strings contribute nothing. *)
Theorem extract_unique_values_sorted_units : forall (data : series) (sep : pystr),
  sep <> [] ->
  exists res, extract_unique_values data sep = Returns res
    /\ StronglySorted str_lt res
    /\ NoDup res
    /\ forall x, In x res <->
         exists s u, In (PStr s) data /\ In u (split_go sep O s)
                     /\ u <> [] /\ x = strip u.
Proof.
  intros data sep Hsep.
  destruct (extract_unique_values_spec data sep Hsep)
    as (res & Hres & Hsorted & Hmem).
  exists res. repeat split; try assumption.
  - now apply strict_NoDup.
  - apply Hmem.
  - apply Hmem.
Qed.

Lemma extract_unique_values_sorted_units_witness :
  exists res,
    extract_unique_values [PStr (py "Skram, Amalie/Ibsen, Henrik"); PNone]
      (py "/") = Returns res
    /\ StronglySorted str_lt res.
Proof.
  destruct (extract_unique_values_sorted_units
              [PStr (py "Skram, Amalie/Ibsen, Henrik"); PNone] (py "/"))
    as (res & Hres & Hsorted & _).
  - vm_compute. discriminate.
  - exists res. split; assumption.
Defined.

(** X2. Unless its result holds the empty string, applying
    [extract_unique_values] to that result, each member a cell of its own,
    returns the same list. *)
Theorem extract_unique_values_idempotent_without_blank :
  forall (data : series) (sep : pystr) (res : list pystr),
  sep <> [] ->
  extract_unique_values data sep = Returns res ->
  ~ In [] res ->
  extract_unique_values (map PStr res) sep = Returns res.
Proof.
  intros data sep res Hsep Hres Hblank.
  now apply (extract_unique_values_twice data).
Qed.

Lemma extract_unique_values_idempotent_without_blank_witness :
  extract_unique_values (map PStr [py "a"; py "b"]) (py "/")
  = Returns [py "a"; py "b"].
Proof.
  apply (extract_unique_values_idempotent_without_blank
           [PStr (py "b / a"); PStr (py "a")] (py "/")).
  - vm_compute. discriminate.
  - vm_compute. reflexivity.
  - vm_compute. intros [H|[H|[]]]; discriminate.
Defined.

(** X3. With a non-empty list of requested values none of which holds a
    regex metacharacter other than parentheses, and on a column that holds
    a string, the pattern branch of [bool_filter] returns a mask as long
    as the column that marks a string cell iff one of the values occurs
    in it as a substring. *)
Theorem bool_filter_any_substring : forall (data : series) (vs : list pystr),
  vs <> [] -> forallb plain vs = true ->
  existsb is_str data = true ->
  exists mask,
    bool_filter data (Some (map PStr vs)) true = Returns mask
    /\ List.length mask = List.length data
    /\ forall i s, nth_error data i = Some (PStr s) ->
         nth_error mask i
         = Some (Some (existsb (fun v => contains v s) vs)).
Proof.
  intros data vs Hne Hplain _. rewrite bool_filter_union by assumption.
  eexists. split; [reflexivity|]. split; [apply length_map|].
  intros i s Hi.
  now rewrite (map_nth_error _ _ _ Hi).
Qed.

Lemma bool_filter_any_substring_witness :
  exists mask,
    bool_filter [PStr (py "Ibsen, Henrik/Bjørnson, Bjørnstjerne"); skram]
      (Some (map PStr [py "Bjørnson"; py "Collett (Camilla)"])) true
    = Returns mask
    /\ nth_error mask 0 = Some (Some true)
    /\ nth_error mask 1 = Some (Some false).
Proof.
  destruct (bool_filter_any_substring
              [PStr (py "Ibsen, Henrik/Bjørnson, Bjørnstjerne"); skram]
              [py "Bjørnson"; py "Collett (Camilla)"])
    as (mask & Hmask & _ & Hcells).
  - discriminate.
  - vm_compute. reflexivity.
  - reflexivity.
  - exists mask. split; [exact Hmask|]. split.
    + apply (Hcells 0%nat (py "Ibsen, Henrik/Bjørnson, Bjørnstjerne")).
      reflexivity.
    + apply (Hcells 1%nat (py "Skram, Amalie")). reflexivity.
Defined.

(** X4. When the remote end answers with an error status (400 to 599),
    both [imag_corpus] and [geo_locations] return the empty table. *)
Theorem http_error_gives_empty_table :
  forall (R : Type) (s : Z) (b : option (list R)),
  (400 <= s < 600)%Z ->
  imag_corpus (Answers (mkResponse s b)) = Returns []
  /\ geo_locations (Answers (mkResponse s b)) = Returns [].
Proof. intros R s b Hs. now apply error_status_gives_empty_table. Qed.

Lemma http_error_gives_empty_table_witness :
  imag_corpus (Answers (mkResponse 404 (@None (list row)))) = Returns []
  /\ geo_locations (Answers (mkResponse 503 (Some three_years)))
     = Returns [].
Proof.
  split.
  - apply (http_error_gives_empty_table row 404 None). lia.
  - apply (http_error_gives_empty_table row 503 (Some three_years)). lia.
Defined.

(* ================================================================== *)
(** * Splitting on one character *)

Lemma split_go_char_app c a r :
  ~ In c a -> split_go [c] O (a ++ c :: r) = a :: split_go [c] O r.
Proof.
  induction a as [|x a IH]; intros Hn.
  - cbn [app split_go starts_with]. now rewrite N.eqb_refl.
  - cbn [app split_go starts_with].
    destruct (N.eqb_spec c x) as [->|Hx]; [exfalso; apply Hn; now left|].
    cbn [andb]. rewrite IH; [reflexivity|].
    intros H. apply Hn. now right.
Qed.

Lemma split_go_char_whole c a : ~ In c a -> split_go [c] O a = [a].
Proof.
  induction a as [|x a IH]; intros Hn; [reflexivity|].
  cbn [split_go starts_with].
  destruct (N.eqb_spec c x) as [->|Hx]; [exfalso; apply Hn; now left|].
  cbn [andb]. rewrite IH; [reflexivity|].
  intros H. apply Hn. now right.
Qed.

(** Splitting what [join] made gives the parts back. *)
Lemma split_join_char c parts :
  parts <> [] -> Forall (fun p => ~ In c p) parts ->
  split_go [c] O (join [c] parts) = parts.
Proof.
  intros Hne Hall. induction Hall as [|p parts Hp Hall IH];
    [contradiction|].
  destruct parts as [|q parts].
  - cbn [join]. now apply split_go_char_whole.
  - change (join [c] (p :: q :: parts))
      with (p ++ c :: join [c] (q :: parts)).
    rewrite split_go_char_app by assumption.
    rewrite IH; [reflexivity|discriminate].
Qed.

(* ================================================================== *)
(** * Author names *)

Lemma format_single_author_pair last first :
  ~ In (ch ",") last -> ~ In (ch ",") first ->
  format_single_author (last ++ ch "," :: first)
  = strip first ++ [ch " "] ++ strip last.
Proof.
  intros Hl Hf. unfold format_single_author.
  rewrite split_go_char_app, split_go_char_whole by assumption.
  reflexivity.
Qed.

(** X5. [format_single_author] turns [last,first] into the stripped first
    name, a blank and the stripped last name; whatever follows a second
    comma is dropped; a name without a comma is stripped and nothing
    else. *)
Theorem format_single_author_swaps :
  forall (last first rest : pystr),
  ~ In (ch ",") last -> ~ In (ch ",") first ->
  format_single_author (last ++ ch "," :: first)
  = strip first ++ [ch " "] ++ strip last
  /\ format_single_author (last ++ ch "," :: first ++ ch "," :: rest)
     = strip first ++ [ch " "] ++ strip last
  /\ format_single_author last = strip last.
Proof.
  intros last first rest Hl Hf. unfold format_single_author.
  split; [|split].
  - fold (format_single_author (last ++ ch "," :: first)).
    now apply format_single_author_pair.
  - rewrite split_go_char_app by assumption.
    rewrite split_go_char_app by assumption.
    pose proof (split_go_nonempty [ch ","] 0 rest) as Hne.
    destruct (split_go [ch ","] 0 rest); [contradiction|reflexivity].
  - rewrite split_go_char_whole by assumption. reflexivity.
Qed.

Lemma format_single_author_swaps_witness :
  format_single_author (py "Ibsen, Henrik") = py "Henrik Ibsen"
  /\ format_single_author (py "Ibsen, Henrik, 1828-1906") = py "Henrik Ibsen".
Proof.
  destruct (format_single_author_swaps (py "Ibsen") (py " Henrik")
              (py " 1828-1906")) as (H1 & H2 & _).
  - vm_compute. intuition discriminate.
  - vm_compute. intuition discriminate.
  - split; [exact H1|exact H2].
Defined.

(** X6. [format_author] formats the names between the slashes one by one
    and joins them with a comma and a blank. *)
Theorem format_author_each_name : forall (names : list pystr),
  names <> [] -> Forall (fun n => ~ In (ch "/") n) names ->
  format_author (join [ch "/"] names)
  = join (py ", ") (map format_single_author names).
Proof.
  intros names Hne Hall. unfold format_author.
  now rewrite split_join_char.
Qed.

Lemma format_author_each_name_witness :
  format_author (py "Ibsen, Henrik/Bjørnson, Bjørnstjerne")
  = py "Henrik Ibsen, Bjørnstjerne Bjørnson".
Proof.
  assert (H : [py "Ibsen, Henrik"; py "Bjørnson, Bjørnstjerne"] <> [])
    by discriminate.
  apply (format_author_each_name _) in H.
  - vm_compute in H. vm_compute. exact H.
  - repeat constructor; vm_compute; intuition discriminate.
Defined.

(* ================================================================== *)
(** * The title shown for a record *)

Lemma format_author_one name :
  ~ In (ch "/") name -> format_author name = format_single_author name.
Proof.
  intros H. unfold format_author. now rewrite split_go_char_whole.
Qed.

(** X7. For a record with a string title, one author written
    [last,first] and a year other than 0, [combine_title_info] returns the
    author first name first, a colon between blanks, the title in double
    quotes and the year in brackets. *)
Theorem combine_title_info_layout :
  forall (r : row) (t last first : pystr),
  col_title r = PStr t ->
  col_authors r = PStr (last ++ ch "," :: first) ->
  ~ In (ch ",") last -> ~ In (ch ",") first ->
  ~ In (ch "/") last -> ~ In (ch "/") first ->
  col_year r <> 0%Z ->
  combine_title_info r
  = Returns ((strip first ++ [ch " "] ++ strip last) ++ py " : "
             ++ ([dquote] ++ t ++ [dquote])
             ++ py " (" ++ str_of_int (col_year r) ++ py ")").
Proof.
  intros r t last first Ht Ha Hl Hf Hl' Hf' Hy.
  unfold combine_title_info. rewrite Ht, Ha. unfold format_title.
  apply Z.eqb_neq in Hy. rewrite Hy.
  assert (Hslash : ~ In (ch "/") (last ++ ch "," :: first)).
  { rewrite in_app_iff. simpl. intros [H|[H|H]]; try contradiction.
    discriminate. }
  rewrite <- (format_single_author_pair last first Hl Hf).
  rewrite <- (format_author_one _ Hslash).
  destruct (last ++ ch "," :: first) as [|x a] eqn:E.
  - destruct last; discriminate.
  - now rewrite <- !app_assoc.
Qed.

Lemma combine_title_info_layout_witness :
  combine_title_info (sample_row 1 1879 ibsen nob fiction)
  = Returns (py "Henrik Ibsen : " ++ [dquote] ++ py "Et dukkehjem"
             ++ [dquote] ++ py " (1879)").
Proof.
  pose proof (combine_title_info_layout
                (sample_row 1 1879 ibsen nob fiction)
                (py "Et dukkehjem") (py "Ibsen") (py " Henrik")
                eq_refl eq_refl) as H.
  vm_compute in H. vm_compute. apply H; intuition discriminate.
Defined.

(* ================================================================== *)
(** * File names *)

Lemma Forall_cons_head (P : pystr -> Prop) c l :
  P [c] -> (forall w, P w -> P (c :: w)) ->
  Forall P l -> Forall P (cons_head c l).
Proof.
  intros H1 Hc Hl. destruct Hl as [|w l Hw Hl]; simpl.
  - now constructor.
  - constructor; auto.
Qed.

(** The words of [split_ws] are not empty and hold no white space. *)
Lemma split_ws_words s :
  Forall (fun w => w <> []
                   /\ Forall (fun c => is_space c = false /\ In c s) w)
    (split_ws s).
Proof.
  induction s as [|c s IH]; [constructor|].
  assert (IH' : Forall (fun w => w <> []
                   /\ Forall (fun x => is_space x = false
                                       /\ In x (c :: s)) w) (split_ws s)).
  { eapply Forall_impl; [|exact IH]. intros w [Hw Hall]. split; [exact Hw|].
    eapply Forall_impl; [|exact Hall]. intros x [Hx Hin].
    split; [exact Hx|now right]. }
  cbn [split_ws]. destruct (is_space c) eqn:Hc; [exact IH'|].
  assert (one : [c] <> []
                /\ Forall (fun x => is_space x = false /\ In x (c :: s)) [c]).
  { split; [discriminate|]. repeat constructor. exact Hc. }
  destruct s as [|d s']; [now repeat constructor|].
  destruct (is_space d); [now constructor|].
  apply Forall_cons_head; [exact one| |exact IH'].
  intros w [Hw Hall]. split; [discriminate|].
  constructor; [|exact Hall]. split; [exact Hc|now left].
Qed.

Lemma first_unit_prefix sep s :
  sep <> [] -> exists q, s = nth 0 (split_go sep O s) [] ++ q.
Proof.
  intros Hsep. destruct (split_go sep 0 s) as [|u us] eqn:E.
  - now apply split_go_nonempty in E.
  - destruct (split_go_head sep 0 s u us Hsep E) as (q & Hq).
    exists q. exact Hq.
Qed.

Lemma join_In c sep ws :
  In c (join sep ws) -> In c sep \/ exists w, In w ws /\ In c w.
Proof.
  induction ws as [|w [|v ws] IH]; cbn [join]; intros H.
  - destruct H.
  - right. exists w. split; [now left|exact H].
  - rewrite !in_app_iff in H. destruct H as [H|[H|H]].
    + right. exists w. split; [now left|exact H].
    + now left.
    + destruct (IH H) as [Hs|(w' & Hw' & Hc)]; [now left|].
      right. exists w'. split; [now right|exact Hc].
Qed.

(** The title proper of [format_filename]: its characters come from the
    full title. *)
Lemma title_part_In full_title c :
  In c (strip (nth 0 (split_go [ch ":"] O full_title) [])) ->
  In c full_title.
Proof.
  intros H.
  destruct (first_unit_prefix [ch ":"] full_title) as (q & Hq);
    [discriminate|].
  destruct (strip_inside (nth 0 (split_go [ch ":"] O full_title) []))
    as (a & b & Hab).
  rewrite Hq, Hab, !in_app_iff. tauto.
Qed.

(** X8. [format_filename] returns words joined by hyphens: no word is
    empty, and each consists of characters of the title that are neither
    white space nor of the punctuation class, the hyphen among them.  So
    the name holds no blank, begins and ends with no hyphen and has no
    two hyphens in a row. *)
Theorem format_filename_words : forall (full_title : pystr),
  exists words,
    format_filename full_title = join [ch "-"] words
    /\ Forall (fun w => w <> []
                 /\ Forall (fun c => is_space c = false
                                     /\ in_punctuation_class c = false
                                     /\ c <> ch "-"
                                     /\ In c full_title) w) words
    /\ Forall (fun c => is_space c = false) (format_filename full_title).
Proof.
  intros full_title. unfold format_filename.
  set (title := strip (nth 0 (split_go [ch ":"] 0 full_title) [])).
  set (words := split_ws (remove_punctuation title)).
  assert (Hwords : Forall (fun w => w <> []
                 /\ Forall (fun c => is_space c = false
                                     /\ in_punctuation_class c = false
                                     /\ c <> ch "-"
                                     /\ In c full_title) w) words).
  { eapply Forall_impl; [|apply split_ws_words].
    intros w [Hw Hall]. split; [exact Hw|].
    eapply Forall_impl; [|exact Hall]. intros c [Hc Hin].
    apply filter_In in Hin as [Hin Hp]. apply negb_true_iff in Hp.
    repeat split; try assumption.
    - intros ->. discriminate.
    - now apply title_part_In. }
  exists words. split; [reflexivity|]. split; [exact Hwords|].
  apply Forall_forall. intros c Hc.
  apply join_In in Hc as [[<-|[]]|(w & Hw & Hc)]; [reflexivity|].
  rewrite Forall_forall in Hwords. destruct (Hwords w Hw) as [_ Hall].
  rewrite Forall_forall in Hall. now apply Hall.
Qed.

Lemma strip_clean t :
  Forall (fun c => is_space c = false) t -> strip t = t.
Proof.
  intros H. unfold strip, rstrip.
  assert (L : forall u, Forall (fun c => is_space c = false) u ->
                        lstrip u = u).
  { intros u Hu. apply lstrip_fixed. destruct Hu; [exact I|assumption]. }
  rewrite (L t H), (L (rev t)); [apply rev_involutive|].
  apply Forall_forall. intros c Hc. apply in_rev in Hc.
  rewrite Forall_forall in H. now apply H.
Qed.

Lemma split_ws_cons c d t :
  is_space c = false -> is_space d = false ->
  split_ws (c :: d :: t) = cons_head c (split_ws (d :: t)).
Proof.
  intros Hc Hd.
  change (split_ws (c :: d :: t))
    with (if is_space c then split_ws (d :: t)
          else if is_space d then [c] :: split_ws (d :: t)
               else cons_head c (split_ws (d :: t))).
  now rewrite Hc, Hd.
Qed.

Lemma split_ws_clean c t :
  Forall (fun x => is_space x = false) (c :: t) -> split_ws (c :: t) = [c :: t].
Proof.
  revert c. induction t as [|d t IH]; intros c H;
    inversion H as [|? ? Hc Ht]; subst.
  - cbn [split_ws]. now rewrite Hc.
  - inversion Ht as [|? ? Hd _]; subst.
    rewrite split_ws_cons by assumption. now rewrite (IH d Ht).
Qed.

(** X9. Only the part of the full title before its first colon counts for
    [format_filename]; and a name made of characters that are neither
    white space nor of the punctuation class, a backslash possibly among
    them, comes back unchanged. *)
Theorem format_filename_title_only : forall (title subtitle : pystr),
  ~ In (ch ":") title ->
  format_filename (title ++ ch ":" :: subtitle) = format_filename title
  /\ (Forall (fun c => is_space c = false
                       /\ in_punctuation_class c = false) title ->
      format_filename title = title).
Proof.
  intros title subtitle Hcolon. unfold format_filename. split.
  - rewrite split_go_char_app by assumption.
    rewrite (split_go_char_whole _ title) by assumption.
    reflexivity.
  - intros Hclean. rewrite split_go_char_whole by assumption.
    cbn [nth].
    assert (Hs : Forall (fun c => is_space c = false) title).
    { eapply Forall_impl; [|exact Hclean]. now intros c [Hc _]. }
    rewrite (strip_clean title Hs). unfold remove_punctuation.
    rewrite filter_all.
    + destruct title as [|c t]; [reflexivity|].
      now rewrite split_ws_clean.
    + intros c Hc. rewrite Forall_forall in Hclean.
      destruct (Hclean c Hc) as [_ Hp]. now rewrite Hp.
Qed.

Lemma format_filename_title_only_witness :
  format_filename (py "Et dukkehjem: skuespill i tre akter")
  = format_filename (py "Et dukkehjem")
  /\ format_filename (py "bind\2") = py "bind\2".
Proof.
  split.
  - apply (format_filename_title_only (py "Et dukkehjem")
             (py " skuespill i tre akter")).
    vm_compute. intuition discriminate.
  - apply (format_filename_title_only (py "bind\2") []).
    + vm_compute. intuition discriminate.
    + repeat constructor.
Defined.

(* ================================================================== *)
(** * Keyword arguments that select nothing *)

Lemma filter_none {A} (p : A -> bool) l :
  (forall x, p x = false) -> filter p l = [].
Proof.
  intros H. induction l as [|x l IH]; simpl; [reflexivity|].
  now rewrite H.
Qed.

Lemma no_int_among_strings z keys :
  existsb (pyval_eqb (PInt z)) (map PStr keys) = false.
Proof. induction keys as [|k keys IH]; simpl; [reflexivity|exact IH]. Qed.

(** With [docids] a non-empty list of strings and nothing else asked for,
    no identifier is a member, the selection is empty and the whole table
    comes back. *)
Lemma filtered_selection_string_docids df keys :
  keys <> [] ->
  filtered_selection df
    (mkCriteria (Some (map PStr keys)) None None None 1814 1905
       None None None)
  = Returns df.
Proof.
  intros Hne. rewrite filtered_selection_spec. unfold selected.
  cbn [categories authors languages]. rewrite !compiled_unconstrained
    by now left.
  cbn [bind]. rewrite filter_none; [reflexivity|].
  intros r. unfold row_passes. cbn [docids].
  destruct keys as [|k keys]; [contradiction|].
  cbn [member_or_any map]. rewrite (no_int_among_strings _ (k :: keys)).
  reflexivity.
Qed.

(** X10. On a table whose category, authors and langs columns each hold a
    string, whatever keyword arguments [filter_unique_options] is given,
    as soon as there is one, nothing is filtered: the options returned
    are those of the column over the whole table. *)
Theorem filter_unique_options_filters_nothing :
  forall (V : Type) (df : table) (col : column) (kwargs : list (pystr * V)),
  kwargs <> [] ->
  existsb is_str (map col_category df) = true ->
  existsb is_str (map col_authors df) = true ->
  existsb is_str (map col_langs df) = true ->
  filter_unique_options df col kwargs
  = extract_unique_values (map (cell col) df) (py "/").
Proof.
  intros V df col kwargs Hne _ _ _. unfold filter_unique_options.
  rewrite <- (map_map fst PStr).
  rewrite filtered_selection_string_docids; [reflexivity|].
  destruct kwargs; [contradiction|discriminate].
Qed.

Lemma filter_unique_options_filters_nothing_witness :
  filter_unique_options three_years Cauthors
    [(py "authors", [py "Skram, Amalie"]); (py "from_year", [py "1890"])]
  = Returns [py "Ibsen, Henrik"; py "Skram, Amalie"].
Proof.
  rewrite (filter_unique_options_filters_nothing (list pystr) three_years
             Cauthors).
  - vm_compute. reflexivity.
  - discriminate.
  - reflexivity.
  - reflexivity.
  - reflexivity.
Defined.

(* ================================================================== *)
(** * The record picked in the widgets *)

Lemma filtered_selection_incl meta_df c res :
  filtered_selection meta_df c = Returns res ->
  forall r, In r res -> In r meta_df.
Proof.
  rewrite filtered_selection_spec.
  destruct (selected c meta_df) as [sel| |] eqn:Hsel; simpl;
    try discriminate.
  destruct (selected_incl c meta_df sel Hsel) as [p Hp].
  destruct sel as [|r0 sel]; simpl; intros [= <-] r Hr; [assumption|].
  rewrite Hp in Hr. now apply filter_In in Hr.
Qed.

Lemma options_returned data :
  exists res, extract_unique_values data (py "/") = Returns res.
Proof.
  destruct (extract_unique_values_spec data (py "/")) as (res & H & _);
    [discriminate|eauto].
Qed.

Lemma cell_eq_str a t : cell_eq a (PStr t) = pyval_eqb a (PStr t).
Proof. now destruct a. Qed.

(** Past the option lists, [corpus_parameters] is the selection, the pick
    and the rows of that title. *)
Lemma corpus_parameters_steps metadata ui :
  corpus_parameters metadata ui
  = app_bind (lift (filtered_selection metadata (widget_criteria ui)))
      (fun subcorpus =>
         let chosen_title :=
           selectbox (map col_metatitle subcorpus) (chosen_index ui) in
         let subcorpus' :=
           filter (fun r => cell_eq (col_metatitle r) chosen_title)
             metadata in
         app_bind (first_value (map col_dhlabid subcorpus'))
           (fun _ => Done subcorpus')).
Proof.
  unfold corpus_parameters.
  destruct (options_returned (map col_authors metadata)) as (a & ->).
  destruct (options_returned (map col_langs metadata)) as (l & ->).
  cbn [lift app_bind]. fold (widget_criteria ui).
  destruct (filtered_selection metadata (widget_criteria ui)); cbn [lift app_bind];
    try reflexivity.
  rewrite boolean_index_map.
  rewrite (filter_ext _ (fun r => cell_eq (col_metatitle r)
             (selectbox (map col_metatitle a0) (chosen_index ui)))).
  - reflexivity.
  - intros r. apply truth_Some.
Qed.

(** X11. When the selection is made and the title picked in it is a
    string, [corpus_parameters] returns every row of the metadata table
    with that title, the picked record among them, whether or not the
    other rows pass the criteria; it does not raise. *)
Theorem corpus_parameters_rows_of_title :
  forall (metadata : table) (ui : widgets) (sel : table) (picked : row),
  filtered_selection metadata (widget_criteria ui) = Returns sel ->
  nth_error sel (chosen_index ui) = Some picked ->
  is_str (col_metatitle picked) = true ->
  corpus_parameters metadata ui
  = Done (filter (fun r => pyval_eqb (col_metatitle r) (col_metatitle picked))
            metadata)
  /\ In picked (filter (fun r => pyval_eqb (col_metatitle r)
                                   (col_metatitle picked)) metadata)
  /\ (forall r, In r metadata ->
        col_metatitle r = col_metatitle picked ->
        In r (filter (fun r => pyval_eqb (col_metatitle r)
                                 (col_metatitle picked)) metadata)).
Proof.
  intros metadata ui sel picked Hsel Hpick Hstr.
  assert (Hall : forall r, In r metadata ->
            col_metatitle r = col_metatitle picked ->
            In r (filter (fun r => pyval_eqb (col_metatitle r)
                                     (col_metatitle picked)) metadata)).
  { intros r Hr E. apply filter_In. split; [assumption|].
    now apply pyval_eqb_eq. }
  assert (Hin : In picked (filter (fun r => pyval_eqb (col_metatitle r)
                                     (col_metatitle picked)) metadata)).
  { apply Hall; [|reflexivity].
    apply (filtered_selection_incl _ _ _ Hsel).
    now apply nth_error_In in Hpick. }
  split; [|split; assumption].
  rewrite corpus_parameters_steps, Hsel. cbn [lift app_bind].
  unfold selectbox.
  rewrite (nth_error_nth _ _ PNone
             (map_nth_error col_metatitle _ _ Hpick)).
  destruct (col_metatitle picked) as [t| |] eqn:Et; try discriminate.
  rewrite (filter_ext _ (fun r => pyval_eqb (col_metatitle r) (PStr t)))
    by (intros r; apply cell_eq_str).
  destruct (filter (fun r => pyval_eqb (col_metatitle r) (PStr t)) metadata);
    [destruct Hin|reflexivity].
Qed.

Lemma corpus_parameters_rows_of_title_witness :
  corpus_parameters three_years
    (mkWidgets [] (1814, 1905)%Z [py "Skram"] [] 0)
  = Done three_years.
Proof.
  destruct (corpus_parameters_rows_of_title three_years
              (mkWidgets [] (1814, 1905)%Z [py "Skram"] [] 0)
              [sample_row 2 1850 skram nob fiction]
              (sample_row 2 1850 skram nob fiction)) as (H & _).
  - vm_compute. reflexivity.
  - reflexivity.
  - reflexivity.
  - vm_compute in H. vm_compute. exact H.
Defined.

(** X12. On a metadata table with its columns but no row
    [corpus_parameters] raises [IndexError]: nothing is offered, nothing
    is picked, and the first identifier of no rows is asked for. *)
Theorem corpus_parameters_empty_table : forall (ui : widgets),
  criteria_compile (widget_criteria ui) = true ->
  corpus_parameters [] ui = IndexError.
Proof.
  intros ui Hc. rewrite corpus_parameters_steps.
  destruct (returns_true (filtered_selection [] (widget_criteria ui)))
    as (sel & Hsel).
  { now rewrite filtered_selection_returns. }
  rewrite Hsel. cbn [lift app_bind].
  destruct sel as [|r sel]; [reflexivity|].
  exfalso. apply (filtered_selection_incl _ _ _ Hsel r). now left.
Qed.

Lemma corpus_parameters_empty_table_witness :
  corpus_parameters [] (mkWidgets [py "Roman"] (1814, 1905)%Z [] [] 0)
  = IndexError.
Proof.
  apply (corpus_parameters_empty_table
           (mkWidgets [py "Roman"] (1814, 1905)%Z [] [] 0)).
  reflexivity.
Defined.

(* ================================================================== *)
(** * Lines of a file *)

Lemma readlines_lines text :
  Forall (fun line => line <> []) (readlines text)
  /\ List.concat (readlines text) = text.
Proof.
  induction text as [|c text [IH1 IH2]]; [split; [constructor|reflexivity]|].
  cbn [readlines]. destruct (c =? 10)%N.
  - split; [constructor; [discriminate|assumption]|].
    cbn [List.concat app]. now rewrite IH2.
  - destruct (readlines text) as [|l ls]; cbn [cons_head]; rewrite <- IH2.
    + split; [repeat constructor; discriminate|reflexivity].
    + apply Forall_inv_tail in IH1.
      split; [constructor; [discriminate|assumption]|reflexivity].
Qed.

Lemma filter_kept {A} (p : A -> bool) l :
  Forall (fun x => p x = true) l -> filter p l = l.
Proof.
  induction 1 as [|x l Hx Hl IH]; simpl; [reflexivity|].
  now rewrite Hx, IH.
Qed.

Lemma blank_line_is_a_line a b :
  In [10%N] (tl (readlines (a ++ 10%N :: 10%N :: b))).
Proof.
  induction a as [|c a IH]; [now left|].
  cbn [app readlines]. destruct (c =? 10)%N; cbn [tl].
  - destruct (readlines (a ++ 10%N :: 10%N :: b)); [destruct IH|].
    now right.
  - destruct (readlines (a ++ 10%N :: 10%N :: b)); [destruct IH|].
    exact IH.
Qed.

(** X13. [read_jsonl] hands every line of the file to [json.loads]: a
    line read by [readlines] is never empty, so the test on the line
    drops none, a blank line (a newline alone) included; the lines put
    together are the text of the file. *)
Theorem read_jsonl_every_line :
  forall (J : Type) (json_loads : pystr -> outcome J) (text : pystr),
  read_jsonl json_loads text = traverse json_loads (readlines text)
  /\ List.concat (readlines text) = text
  /\ (forall a b, In [10%N] (readlines (a ++ 10%N :: 10%N :: b))).
Proof.
  intros J json_loads text. destruct (readlines_lines text) as [Hne Hcat].
  split; [|split].
  - unfold read_jsonl. rewrite filter_kept; [reflexivity|].
    eapply Forall_impl; [|exact Hne]. now intros [|c l] H.
  - exact Hcat.
  - intros a b. pose proof (blank_line_is_a_line a b) as H.
    destruct (readlines (a ++ 10%N :: 10%N :: b)); [destruct H|].
    now right.
Qed.

(* ================================================================== *)
(** * Selecting twice *)

Lemma filter_twice {A} (p : A -> bool) l :
  filter p (filter p l) = filter p l.
Proof.
  apply filter_kept. apply Forall_forall. intros x Hx.
  now apply filter_In in Hx.
Qed.

(** X14. Selecting again from a result with the same criteria changes
    nothing. *)
Theorem filtered_selection_idempotent :
  forall (meta_df res : table) (c : criteria),
  filtered_selection meta_df c = Returns res ->
  filtered_selection res c = Returns res.
Proof.
  intros meta_df res c. rewrite !filtered_selection_spec. unfold selected.
  destruct (compiled (categories c)) as [rc| |]; cbn [bind];
    try discriminate.
  destruct (compiled (authors c)) as [ra| |]; cbn [bind]; try discriminate.
  destruct (compiled (languages c)) as [rl| |]; cbn [bind];
    try discriminate.
  destruct (filter (row_passes c rc ra rl) meta_df) as [|r0 sel] eqn:E;
    cbn [is_empty]; intros [= <-].
  - now rewrite E.
  - rewrite <- E, filter_twice, E. reflexivity.
Qed.

Lemma filtered_selection_idempotent_witness :
  filtered_selection [sample_row 2 1850 skram nob fiction]
    (with_authors [skram])
  = Returns [sample_row 2 1850 skram nob fiction].
Proof.
  apply (filtered_selection_idempotent three_years).
  vm_compute. reflexivity.
Defined.

(* ================================================================== *)
(** * The values offered *)

(** X15. No value [extract_unique_values] returns has white space at
    either end, and none holds the separator. *)
Theorem extract_unique_values_clean :
  forall (data : series) (sep : pystr) (res : list pystr),
  sep <> [] ->
  extract_unique_values data sep = Returns res ->
  forall x, In x res -> strip x = x /\ contains sep x = false.
Proof.
  intros data sep res Hsep Hres x Hx.
  destruct (extract_unique_values_spec data sep Hsep)
    as (res' & Hres' & _ & Hmem).
  rewrite Hres in Hres'. injection Hres' as <-.
  apply Hmem in Hx as (s & u & _ & Hu & _ & ->).
  split; [apply strip_idem|].
  apply (units_without_sep sep 0 s u Hsep) in Hu.
  destruct (strip_inside u) as (a & b & Hab).
  apply (contains_inside sep a (strip u) b). now rewrite <- Hab.
Qed.

Lemma extract_unique_values_clean_witness :
  strip (py "Ibsen, Henrik") = py "Ibsen, Henrik"
  /\ contains (py "/") (py "Ibsen, Henrik") = false.
Proof.
  apply (extract_unique_values_clean
           [PStr (py " Ibsen, Henrik /Skram, Amalie")] (py "/")
           [py "Ibsen, Henrik"; py "Skram, Amalie"]).
  - vm_compute. discriminate.
  - vm_compute. reflexivity.
  - now left.
Defined.

(** X16. [extract_unique_values] depends on which cells the column holds
    only, not on their order nor on how often each occurs. *)
Theorem extract_unique_values_of_set :
  forall (data1 data2 : series) (sep : pystr),
  sep <> [] ->
  (forall v, In v data1 <-> In v data2) ->
  extract_unique_values data1 sep = extract_unique_values data2 sep.
Proof.
  intros data1 data2 sep Hsep Hsame.
  destruct (extract_unique_values_spec data1 sep Hsep)
    as (r1 & H1 & S1 & M1).
  destruct (extract_unique_values_spec data2 sep Hsep)
    as (r2 & H2 & S2 & M2).
  rewrite H1, H2. f_equal. apply strict_unique; try assumption.
  intros x. rewrite M1, M2. now apply is_unit_of_ext.
Qed.

Lemma extract_unique_values_of_set_witness :
  extract_unique_values [ibsen; skram; ibsen] (py "/")
  = extract_unique_values [skram; ibsen] (py "/").
Proof.
  apply (extract_unique_values_of_set [ibsen; skram; ibsen] [skram; ibsen]).
  - vm_compute. discriminate.
  - intros v. simpl. tauto.
Defined.
